(** * RepoTutor: path resolution and structured-response recovery

    A shallow embedding of [resolveActualPath] (services/githubService.ts)
    and [safeJsonParse] (the Gemini service) together with the properties
    their specification states about them.

    Strings.  A JavaScript string is a sequence of UTF-16 code units.  The
    development works with the code units below 256 (the Latin-1 range),
    carried by Rocq's [string]; on that range [toLowerCase], [trim] and the
    two fence regular expressions are modelled exactly.

    Effects.  [safeJsonParse] writes to the console and throws; it is a
    computation in a small console-state and exception monad in which a
    throw keeps the lines already written. *)

From Stdlib Require Import String Ascii List ZArith Lia Bool Arith.
Import ListNotations.
Local Open Scope string_scope.
Local Open Scope nat_scope.

(** ** JavaScript string and array primitives *)

Module Js.

Definition charCode (c : ascii) : nat := nat_of_ascii c.

Definition inRange (lo hi n : nat) : bool := (lo <=? n) && (n <=? hi).

(** Upper-case letters of the Latin-1 range: A-Z, and U+00C0..U+00DE
    without the multiplication sign U+00D7. *)
Definition isUpper (c : ascii) : bool :=
  let n := charCode c in
  inRange 65 90 n || (inRange 192 222 n && negb (n =? 215)).

Definition toLowerCaseChar (c : ascii) : ascii :=
  if isUpper c then ascii_of_nat (charCode c + 32) else c.

(** [String.prototype.toLowerCase]. *)
Fixpoint toLowerCase (s : string) : string :=
  match s with
  | EmptyString => EmptyString
  | String c r => String (toLowerCaseChar c) (toLowerCase r)
  end.

(** WhiteSpace and LineTerminator code units below 256:
    TAB, LF, VT, FF, CR, SP and NBSP. *)
Definition isWhiteSpace (c : ascii) : bool :=
  let n := charCode c in
  inRange 9 13 n || (n =? 32) || (n =? 160).

Fixpoint trimStart (s : string) : string :=
  match s with
  | EmptyString => EmptyString
  | String c r => if isWhiteSpace c then trimStart r else s
  end.

Fixpoint trimEnd (s : string) : string :=
  match s with
  | EmptyString => EmptyString
  | String c r =>
      match trimEnd r with
      | EmptyString => if isWhiteSpace c then EmptyString else String c EmptyString
      | r' => String c r'
      end
  end.

(** [String.prototype.trim]. *)
Definition trim (s : string) : string := trimEnd (trimStart s).

(** [s.split(sep)] for a one-character separator: never empty. *)
Fixpoint split (s : string) (sep : ascii) : list string :=
  match s with
  | EmptyString => [EmptyString]
  | String c r =>
      if Ascii.eqb c sep then EmptyString :: split r sep
      else match split r sep with
           | h :: t => String c h :: t
           | [] => [String c EmptyString]
           end
  end.

(** [parts[parts.length - 1]]; [undefined] cannot arise on the result of
    [split], the default is never used there. *)
Definition lastPart (parts : list string) : string := last parts EmptyString.

(** [parts.join(sep)]. *)
Fixpoint join (parts : list string) (sep : string) : string :=
  match parts with
  | [] => EmptyString
  | [p] => p
  | p :: rest => p ++ sep ++ join rest sep
  end.

(** [Array.prototype.slice(start)] with the relative-index rule for a
    negative start. *)
Definition arraySlice {A : Type} (l : list A) (start : Z) : list A :=
  let len := Z.of_nat (length l) in
  let from := if (start <? 0)%Z then Z.max (len + start) 0 else Z.min start len in
  skipn (Z.to_nat from) l.

(** [s.startsWith(p)]. *)
Definition startsWith (s p : string) : bool := prefix p s.

(** [s.endsWith(p)]. *)
Fixpoint endsWith (s p : string) : bool :=
  String.eqb s p ||
  match s with
  | EmptyString => false
  | String _ r => endsWith r p
  end.

(** [s.includes(p)]. *)
Fixpoint includes (s p : string) : bool :=
  prefix p s ||
  match s with
  | EmptyString => false
  | String _ r => includes r p
  end.

(** [s.indexOf(c)] for a one-character needle; [-1] when absent. *)
Fixpoint indexOf (s : string) (c : ascii) : Z :=
  match s with
  | EmptyString => (-1)%Z
  | String a r =>
      if Ascii.eqb a c then 0%Z
      else let i := indexOf r c in
           if (i =? -1)%Z then (-1)%Z else (i + 1)%Z
  end.

(** [s.lastIndexOf(c)] for a one-character needle; [-1] when absent. *)
Fixpoint lastIndexOf (s : string) (c : ascii) : Z :=
  match s with
  | EmptyString => (-1)%Z
  | String a r =>
      let i := lastIndexOf r c in
      if (i =? -1)%Z then (if Ascii.eqb a c then 0%Z else (-1)%Z)
      else (i + 1)%Z
  end.

(** [s.slice(start, end)] with the relative-index rule for negative
    arguments. *)
Definition slice (s : string) (start stop : Z) : string :=
  let len := Z.of_nat (String.length s) in
  let from := if (start <? 0)%Z then Z.max (len + start) 0 else Z.min start len in
  let to := if (stop <? 0)%Z then Z.max (len + stop) 0 else Z.min stop len in
  substring (Z.to_nat from) (Z.to_nat (Z.max (to - from) 0)) s.

End Js.

(** ** The repository tree (types.ts) *)

Inductive NodeType := blob | tree.

Definition NodeType_eqb (a b : NodeType) : bool :=
  match a, b with
  | blob, blob | tree, tree => true
  | _, _ => false
  end.

Record FileNode := mkFileNode {
  path : string;
  type : NodeType;
  sha : string;
  size : option Z;
  url : string
}.

(** ** resolveActualPath (services/githubService.ts) *)

Module Resolver.
Import Js.

Definition normalizedSuggested (suggestedPath : string) : string :=
  trim (toLowerCase suggestedPath).

Definition pathParts (suggestedPath : string) : list string :=
  split suggestedPath "/".

Definition fileNameOnly (suggestedPath : string) : string :=
  toLowerCase (lastPart (pathParts suggestedPath)).

Definition isBlob (n : FileNode) : bool := NodeType_eqb (type n) blob.

(** The predicate of stage 1. *)
Definition isExact (suggestedPath : string) (n : FileNode) : bool :=
  String.eqb (toLowerCase (path n)) (normalizedSuggested suggestedPath) && isBlob n.

(** The predicate of stages 2 and 3: the last "/"-part of the lowered
    path is [target]. *)
Definition hasFileName (target : string) (n : FileNode) : bool :=
  String.eqb (lastPart (split (toLowerCase (path n)) "/")) target && isBlob n.

(** 1. Exact match (case insensitive). *)
Definition exact (suggestedPath : string) (tree : list FileNode) : option FileNode :=
  find (isExact suggestedPath) tree.

(** 2. Direct filename match (ignoring directories). *)
Definition fileOnlyMatch (suggestedPath : string) (tree : list FileNode) : option FileNode :=
  find (hasFileName (fileNameOnly suggestedPath)) tree.

(** 3. Filename with common extensions. *)
Definition extensions : list string :=
  [""; ".py"; ".js"; ".ts"; ".md"; ".html"; ".css"; ".json"; ".txt";
   ".cpp"; ".h"; ".java"; ".go"; ".tsx"; ".jsx"].

Definition target (fileNameOnly ext : string) : string :=
  toLowerCase (if includes fileNameOnly "." then fileNameOnly
               else fileNameOnly ++ ext).

(** The [for (const ext of extensions)] loop, leaving at the first hit. *)
Fixpoint extensionLoop (exts : list string) (fileNameOnly : string)
         (tree : list FileNode) : option FileNode :=
  match exts with
  | [] => None
  | ext :: rest =>
      match find (hasFileName (target fileNameOnly ext)) tree with
      | Some m => Some m
      | None => extensionLoop rest fileNameOnly tree
      end
  end.

Definition extensionMatch (suggestedPath : string) (tree : list FileNode) : option FileNode :=
  extensionLoop extensions (fileNameOnly suggestedPath) tree.

(** 4. Deep path suffix match. *)
Definition suffix (suggestedPath : string) : string :=
  toLowerCase (join (arraySlice (pathParts suggestedPath) (-2)) "/").

Definition hasSuffix (suggestedPath : string) (n : FileNode) : bool :=
  endsWith (toLowerCase (path n)) (suffix suggestedPath) && isBlob n.

Definition suffixMatch (suggestedPath : string) (tree : list FileNode) : option FileNode :=
  if 1 <? length (pathParts suggestedPath)
  then find (hasSuffix suggestedPath) tree
  else None.

(** 5. Partial filename match (at least 4 characters). *)
Definition containsFileName (suggestedPath : string) (n : FileNode) : bool :=
  includes (toLowerCase (path n)) (fileNameOnly suggestedPath) && isBlob n.

Definition partial (suggestedPath : string) (tree : list FileNode) : option FileNode :=
  if 4 <=? String.length (fileNameOnly suggestedPath)
  then find (containsFileName suggestedPath) tree
  else None.

(** [!suggestedPath || !tree.length]. *)
Definition guard (suggestedPath : string) (tree : list FileNode) : bool :=
  String.eqb suggestedPath "" || (length tree =? 0).

Definition resolveActualPath (suggestedPath : string) (tree : list FileNode)
  : option string :=
  if guard suggestedPath tree then None else
  match exact suggestedPath tree with
  | Some n => Some (path n)
  | None =>
  match fileOnlyMatch suggestedPath tree with
  | Some n => Some (path n)
  | None =>
  match extensionMatch suggestedPath tree with
  | Some n => Some (path n)
  | None =>
  match suffixMatch suggestedPath tree with
  | Some n => Some (path n)
  | None =>
  match partial suggestedPath tree with
  | Some n => Some (path n)
  | None => None
  end end end end end.

(** *** The specification's words *)

(** An entry of kind file whose lowered full path is the lowered and
    trimmed suggestion. *)
Definition exactFile (suggestedPath : string) (n : FileNode) : Prop :=
  type n = blob /\ toLowerCase (path n) = trim (toLowerCase suggestedPath).

(** An entry of kind file whose lowered final segment is [name]. *)
Definition finalSegmentIs (name : string) (n : FileNode) : Prop :=
  type n = blob /\ lastPart (split (toLowerCase (path n)) "/") = name.

(** The final segment of the suggestion: the text after its last "/". *)
Definition finalSegment (suggestedPath : string) : string :=
  lastPart (split suggestedPath "/").

(** [p] occurs in [s] as a substring. *)
Definition substringOf (p s : string) : Prop :=
  exists before after, s = before ++ p ++ after.

(** An entry of kind file whose lowered full path contains the lowered
    final segment of the suggestion as a substring. *)
Definition containsFile (suggestedPath : string) (n : FileNode) : Prop :=
  type n = blob /\
  substringOf (toLowerCase (finalSegment suggestedPath)) (toLowerCase (path n)).

(** The extension list as the specification gives it. *)
Definition cascadeExtensions : list string :=
  [".py"; ".js"; ".ts"; ".md"; ".html"; ".css"; ".json"; ".txt";
   ".cpp"; ".h"; ".java"; ".go"; ".tsx"; ".jsx"].

(** The resolver in which stage 3 is skipped entirely. *)
Definition resolveSkippingCascade (suggestedPath : string) (tree : list FileNode)
  : option string :=
  if guard suggestedPath tree then None else
  match exact suggestedPath tree with
  | Some n => Some (path n)
  | None =>
  match fileOnlyMatch suggestedPath tree with
  | Some n => Some (path n)
  | None =>
  match suffixMatch suggestedPath tree with
  | Some n => Some (path n)
  | None =>
  match partial suggestedPath tree with
  | Some n => Some (path n)
  | None => None
  end end end end.

(** A file entry with the given path. *)
Definition file (p : string) : FileNode := mkFileNode p blob "" None "".

(** A directory entry with the given path. *)
Definition dir (p : string) : FileNode := mkFileNode p tree "" None "".

End Resolver.

(** ** safeJsonParse (the Gemini service) *)

Module Recovery.
Import Js.

(** *** Thrown values, the console, and computations *)

(** What a [throw] carries: an exception of the JSON decoder (of a type
    [D] left to the decoder), or an [Error] built by [new Error(message)]. *)
Inductive Thrown (D : Type) :=
| DecoderError (e : D)
| Error (message : string).
Arguments DecoderError {D} e.
Arguments Error {D} message.

(** One argument of a [console.error] call. *)
Inductive LogArg (D : Type) :=
| LogString (s : string)
| LogThrown (e : Thrown D).
Arguments LogString {D} s.
Arguments LogThrown {D} e.

(** The console: the [console.error] calls so far, oldest first. *)
Definition Console (D : Type) := list (list (LogArg D)).

Inductive Outcome (D A : Type) :=
| Return (a : A)
| Throw (e : Thrown D).
Arguments Return {D A} a.
Arguments Throw {D A} e.

(** A computation runs on a console and ends by returning or throwing;
    the console it leaves is kept in both cases. *)
Definition Comp (D A : Type) := Console D -> Outcome D A * Console D.

Definition ret {D A} (a : A) : Comp D A := fun c => (Return a, c).

Definition throw {D A} (e : Thrown D) : Comp D A := fun c => (Throw e, c).

Definition bind {D A B} (m : Comp D A) (k : A -> Comp D B) : Comp D B :=
  fun c =>
    match m c with
    | (Return a, c') => k a c'
    | (Throw e, c') => (Throw e, c')
    end.

(** [try { m } catch (e) { handler e }]. *)
Definition tryCatch {D A} (m : Comp D A) (handler : Thrown D -> Comp D A) : Comp D A :=
  fun c =>
    match m c with
    | (Return a, c') => (Return a, c')
    | (Throw e, c') => handler e c'
    end.

(** [console.error(...args)]. *)
Definition consoleError {D} (args : list (LogArg D)) : Comp D unit :=
  fun c => (Return tt, (c ++ [args])%list).

Declare Scope comp_scope.
Delimit Scope comp_scope with comp.
Notation "x <- m ;; k" := (bind m (fun x => k))
  (at level 61, m at next level, right associativity) : comp_scope.
Notation "m ;; k" := (bind m (fun _ => k))
  (at level 61, right associativity) : comp_scope.
Local Open Scope comp_scope.

(** *** The JSON decoder *)

(** The result of [JSON.parse]: a value, or the exception it throws. *)
Inductive Decoded (V D : Type) :=
| Parsed (v : V)
| SyntaxError (e : D).
Arguments Parsed {V D} v.
Arguments SyntaxError {V D} e.

Definition Decoder (V D : Type) := string -> Decoded V D.

(** [JSON.parse(s)] as a computation. *)
Definition JSON_parse {V D} (decode : Decoder V D) (s : string) : Comp D V :=
  match decode s with
  | Parsed v => ret v
  | SyntaxError e => throw (DecoderError e)
  end.

(** *** Fence stripping *)

Definition LF : ascii := "010"%char.

Definition fence : string := "```".

(** [a-z] under the [i] flag. *)
Definition isLetter (c : ascii) : bool :=
  let n := charCode c in
  inRange 97 122 n || inRange 65 90 n.

Fixpoint dropLetters (s : string) : string :=
  match s with
  | EmptyString => EmptyString
  | String c r => if isLetter c then dropLetters r else s
  end.

Definition dropNewline (s : string) : string :=
  match s with
  | EmptyString => EmptyString
  | String c r => if Ascii.eqb c LF then r else s
  end.

(** [s.replace(/^```[a-z]*\n?/i, '')]. *)
Definition removeOpeningFence (s : string) : string :=
  if prefix fence s
  then dropNewline (dropLetters (substring 3 (String.length s - 3) s))
  else s.

(** [s.replace(/\n?```$/i, '')]: the leftmost place from which the rest
    of the text is the fence, with a newline before it when there is one. *)
Fixpoint removeClosingFence (s : string) : string :=
  if String.eqb s (String LF fence) || String.eqb s fence then EmptyString
  else match s with
       | EmptyString => EmptyString
       | String c r => String c (removeClosingFence r)
       end.

(** The text handed to [JSON.parse] by the first attempt. *)
Definition cleaned (text : string) : string :=
  let cleaned := trim text in
  if startsWith cleaned fence
  then removeClosingFence (removeOpeningFence cleaned)
  else cleaned.

(** *** Boundary slice *)

Definition startObj (text : string) : Z := indexOf text "{".
Definition startArr (text : string) : Z := indexOf text "[".

Definition start (text : string) : Z :=
  if negb (startObj text =? -1)%Z
     && ((startArr text =? -1)%Z || (startObj text <? startArr text)%Z)
  then startObj text else startArr text.

Definition endObj (text : string) : Z := lastIndexOf text "}".
Definition endArr (text : string) : Z := lastIndexOf text "]".

Definition end_ (text : string) : Z :=
  if negb (endObj text =? -1)%Z
     && ((endArr text =? -1)%Z || (endObj text >? endArr text)%Z)
  then endObj text else endArr text.

(** [start !== -1 && end !== -1 && end > start]. *)
Definition sliceable (text : string) : bool :=
  negb (start text =? -1)%Z && negb (end_ text =? -1)%Z
  && (end_ text >? start text)%Z.

Definition sliced (text : string) : string :=
  slice text (start text) (end_ text + 1).

Definition malformedMessage : string :=
  "The AI provided an invalid data format or the response was truncated. Please try again.".

(** *** safeJsonParse *)

Section SafeJsonParse.
Context {V D : Type} (decode : Decoder V D).

(** The body of the outer [try]. *)
Definition direct (text : string) : Comp D V :=
  JSON_parse decode (cleaned text).

(** The inner [try ... catch]: [Some v] when its [return] is reached,
    [None] when control falls through to the final [throw]. *)
Definition nested (text : string) : Comp D (option V) :=
  tryCatch
    (if sliceable text
     then v <- JSON_parse decode (sliced text) ;; ret (Some v)
     else ret None)
    (fun innerError =>
       consoleError [LogString "Nested JSON recovery failed"; LogThrown innerError] ;;
       ret None).

Definition safeJsonParse (text : string) : Comp D V :=
  tryCatch (direct text)
    (fun e =>
       consoleError [LogString "JSON parse failed. Raw Text:"; LogString text] ;;
       r <- nested text ;;
       match r with
       | Some v => ret v
       | None => throw (Error malformedMessage)
       end).

End SafeJsonParse.

(** *** What the specification calls the outcome of [recover] *)

(** The text a failure value carries: the message of an [Error]; a
    decoder exception carries what the decoder put in it. *)
Definition carriedText {D} (e : Thrown D) : option string :=
  match e with
  | Error message => Some message
  | DecoderError _ => None
  end.

(** [MalformedResponse]: the [Error] thrown at the end of [safeJsonParse]. *)
Definition MalformedResponse {D} : Thrown D := Error malformedMessage.

(** The console line of the outer [catch]. *)
Definition rawTextLine {D} (text : string) : list (LogArg D) :=
  [LogString "JSON parse failed. Raw Text:"; LogString text].

(** The console line of the inner [catch]. *)
Definition nestedLine {D} (innerError : Thrown D) : list (LogArg D) :=
  [LogString "Nested JSON recovery failed"; LogThrown innerError].

(** [c] occurs in [s] at index [i] and nowhere before. *)
Definition firstAt (s : string) (c : ascii) (i : Z) : Prop :=
  (0 <= i)%Z /\ String.get (Z.to_nat i) s = Some c /\
  forall j, j < Z.to_nat i -> String.get j s <> Some c.

(** [c] occurs in [s] at index [i] and nowhere after. *)
Definition lastAt (s : string) (c : ascii) (i : Z) : Prop :=
  (0 <= i)%Z /\ String.get (Z.to_nat i) s = Some c /\
  forall j, Z.to_nat i < j -> String.get j s <> Some c.

(** [c] does not occur in [s]. *)
Definition absent (s : string) (c : ascii) : Prop :=
  forall j, String.get j s <> Some c.

End Recovery.

(** ** A reference JSON decoder

    [JSON.parse] belongs to the JavaScript engine.  The theorems about
    [safeJsonParse] hold for every decoder; this one follows the JSON
    grammar and serves to run [safeJsonParse] on concrete texts.  Numbers
    are kept as their lexeme, strings as their code units. *)

Module Json.
Import Js.

#[warnings="-register-all"]
Inductive value :=
| Null
| Bool (b : bool)
| Number (lexeme : string)
| Str (units : list N)
| Array (items : list value)
| Object (members : list (list N * value)).

Definition DQUOTE : ascii := "034"%char.
Definition BACKSLASH : ascii := "092"%char.

Definition isJsonWs (c : ascii) : bool :=
  let n := charCode c in
  (n =? 9) || (n =? 10) || (n =? 13) || (n =? 32).

Fixpoint skipWs (s : string) : string :=
  match s with
  | EmptyString => EmptyString
  | String c r => if isJsonWs c then skipWs r else s
  end.

Definition isDigit (c : ascii) : bool := inRange 48 57 (charCode c).

Fixpoint takeDigits (s : string) : string * string :=
  match s with
  | EmptyString => (EmptyString, EmptyString)
  | String c r =>
      if isDigit c then let (d, r') := takeDigits r in (String c d, r')
      else (EmptyString, s)
  end.

(** int: "0", or a non-zero digit followed by digits. *)
Definition parseInt (s : string) : option (string * string) :=
  match s with
  | String c r =>
      if Ascii.eqb c "0" then Some ("0", r)
      else if isDigit c then let (d, r') := takeDigits r in Some (String c d, r')
      else None
  | EmptyString => None
  end.

Definition parseFrac (s : string) : option (string * string) :=
  match s with
  | String c r =>
      if Ascii.eqb c "." then
        match takeDigits r with
        | (EmptyString, _) => None
        | (d, r') => Some (String c d, r')
        end
      else Some (EmptyString, s)
  | EmptyString => Some (EmptyString, s)
  end.

Definition parseSign (s : string) : string * string :=
  match s with
  | String c r =>
      if Ascii.eqb c "+" || Ascii.eqb c "-" then (String c EmptyString, r)
      else (EmptyString, s)
  | EmptyString => (EmptyString, s)
  end.

Definition parseExp (s : string) : option (string * string) :=
  match s with
  | String c r =>
      if Ascii.eqb c "e" || Ascii.eqb c "E" then
        let (sg, r1) := parseSign r in
        match takeDigits r1 with
        | (EmptyString, _) => None
        | (d, r') => Some (String c (sg ++ d), r')
        end
      else Some (EmptyString, s)
  | EmptyString => Some (EmptyString, s)
  end.

Definition parseNumber (s : string) : option (string * string) :=
  let (minus, s1) :=
    match s with
    | String c r => if Ascii.eqb c "-" then ("-", r) else (EmptyString, s)
    | EmptyString => (EmptyString, s)
    end in
  match parseInt s1 with
  | None => None
  | Some (i, s2) =>
      match parseFrac s2 with
      | None => None
      | Some (f, s3) =>
          match parseExp s3 with
          | None => None
          | Some (e, s4) => Some (minus ++ i ++ f ++ e, s4)
          end
      end
  end.

Definition hexDigit (c : ascii) : option N :=
  let n := charCode c in
  if inRange 48 57 n then Some (N.of_nat (n - 48))
  else if inRange 97 102 n then Some (N.of_nat (n - 87))
  else if inRange 65 70 n then Some (N.of_nat (n - 55))
  else None.

Definition parseHex4 (s : string) : option (N * string) :=
  match s with
  | String a (String b (String c (String d r))) =>
      match hexDigit a, hexDigit b, hexDigit c, hexDigit d with
      | Some x, Some y, Some z, Some w => Some ((((x * 16 + y) * 16 + z) * 16 + w)%N, r)
      | _, _, _, _ => None
      end
  | _ => None
  end.

Definition escapeUnit (c : ascii) : option N :=
  if Ascii.eqb c DQUOTE then Some 34%N
  else if Ascii.eqb c BACKSLASH then Some 92%N
  else if Ascii.eqb c "/" then Some 47%N
  else if Ascii.eqb c "b" then Some 8%N
  else if Ascii.eqb c "f" then Some 12%N
  else if Ascii.eqb c "n" then Some 10%N
  else if Ascii.eqb c "r" then Some 13%N
  else if Ascii.eqb c "t" then Some 9%N
  else None.

(** The characters of a string after its opening quote, up to and
    including the closing quote. *)
Fixpoint parseChars (fuel : nat) (s : string) : option (list N * string) :=
  match fuel with
  | 0 => None
  | S fuel' =>
      match s with
      | EmptyString => None
      | String c r =>
          if Ascii.eqb c DQUOTE then Some ([], r)
          else if Ascii.eqb c BACKSLASH then
            match r with
            | EmptyString => None
            | String e r1 =>
                if Ascii.eqb e "u" then
                  match parseHex4 r1 with
                  | None => None
                  | Some (u, r2) =>
                      match parseChars fuel' r2 with
                      | None => None
                      | Some (us, r3) => Some (u :: us, r3)
                      end
                  end
                else
                  match escapeUnit e with
                  | None => None
                  | Some u =>
                      match parseChars fuel' r1 with
                      | None => None
                      | Some (us, r3) => Some (u :: us, r3)
                      end
                  end
            end
          else if charCode c <? 32 then None
          else
            match parseChars fuel' r with
            | None => None
            | Some (us, r3) => Some (N.of_nat (charCode c) :: us, r3)
            end
      end
  end.

Definition parseString (s : string) : option (list N * string) :=
  parseChars (S (String.length s)) s.

Definition parseLiteral (s : string) : option (value * string) :=
  if prefix "true" s then Some (Bool true, substring 4 (String.length s - 4) s)
  else if prefix "false" s then Some (Bool false, substring 5 (String.length s - 5) s)
  else if prefix "null" s then Some (Null, substring 4 (String.length s - 4) s)
  else match parseNumber s with
       | Some (lexeme, r) => Some (Number lexeme, r)
       | None => None
       end.

Fixpoint parseValue (fuel : nat) (s : string) {struct fuel} : option (value * string) :=
  match fuel with
  | 0 => None
  | S fuel' =>
      match skipWs s with
      | EmptyString => None
      | String c r =>
          if Ascii.eqb c "{" then
            match skipWs r with
            | String c' r' =>
                if Ascii.eqb c' "}" then Some (Object [], r')
                else parseMembers fuel' r []
            | EmptyString => None
            end
          else if Ascii.eqb c "[" then
            match skipWs r with
            | String c' r' =>
                if Ascii.eqb c' "]" then Some (Array [], r')
                else parseElements fuel' r []
            | EmptyString => None
            end
          else if Ascii.eqb c DQUOTE then
            match parseString r with
            | Some (us, r') => Some (Str us, r')
            | None => None
            end
          else parseLiteral (String c r)
      end
  end
with parseElements (fuel : nat) (s : string) (acc : list value) {struct fuel}
     : option (value * string) :=
  match fuel with
  | 0 => None
  | S fuel' =>
      match parseValue fuel' s with
      | None => None
      | Some (v, r) =>
          match skipWs r with
          | String c r' =>
              if Ascii.eqb c "," then parseElements fuel' r' (v :: acc)
              else if Ascii.eqb c "]" then Some (Array (rev (v :: acc)), r')
              else None
          | EmptyString => None
          end
      end
  end
with parseMembers (fuel : nat) (s : string) (acc : list (list N * value)) {struct fuel}
     : option (value * string) :=
  match fuel with
  | 0 => None
  | S fuel' =>
      match skipWs s with
      | String q r =>
          if Ascii.eqb q DQUOTE then
            match parseString r with
            | None => None
            | Some (k, r1) =>
                match skipWs r1 with
                | String c r2 =>
                    if Ascii.eqb c ":" then
                      match parseValue fuel' r2 with
                      | None => None
                      | Some (v, r3) =>
                          match skipWs r3 with
                          | String c' r4 =>
                              if Ascii.eqb c' "," then parseMembers fuel' r4 ((k, v) :: acc)
                              else if Ascii.eqb c' "}" then Some (Object (rev ((k, v) :: acc)), r4)
                              else None
                          | EmptyString => None
                          end
                      end
                    else None
                | EmptyString => None
                end
            end
          else None
      | EmptyString => None
      end
  end.

Definition unexpected : string := "Unexpected token".

(** A whole text as one JSON value, white space allowed around it. *)
Definition parse : Recovery.Decoder value string :=
  fun s =>
    match parseValue (2 * String.length s + 2) s with
    | Some (v, r) =>
        match skipWs r with
        | EmptyString => Recovery.Parsed v
        | String _ _ => Recovery.SyntaxError unexpected
        end
    | None => Recovery.SyntaxError unexpected
    end.

(** The code units of a text, for writing expected values. *)
Fixpoint units (s : string) : list N :=
  match s with
  | EmptyString => []
  | String c r => N.of_nat (charCode c) :: units r
  end.

End Json.

Import Js Resolver Recovery.

(** ** Sample responses *)

Module Samples.

Definition quote : string := String Json.DQUOTE EmptyString.
Definition newline : string := String LF EmptyString.

(** The object with the one member "a": 1, as text. *)
Definition objectText : string := "{" ++ quote ++ "a" ++ quote ++ ":1}".

(** The same object, as the reference decoder gives it. *)
Definition objectValue : Json.value :=
  Json.Object [(Json.units "a", Json.Number "1")].

(** The object in a fenced code block with a language tag. *)
Definition fenced : string :=
  "```json" ++ newline ++ objectText ++ newline ++ "```".

(** The object with prose around it. *)
Definition proseWrapped : string :=
  "Here is the result: " ++ objectText ++ " Hope that helps!".

Definition noJson : string := "no json here at all".

(** Brackets in the right order around text that is not JSON. *)
Definition brokenSlice : string := "oops { then ] again".

End Samples.

(** ** parseGithubUrl (services/githubService.ts) *)

Module GitHubUrl.

(** The object literal [{ owner, repo }]. *)
Record OwnerRepo := mkOwnerRepo {
  owner : string;
  repo : string
}.

(** The longest run of [[^/]] at the start of a text, and what follows. *)
Fixpoint spanNotSlash (s : string) : string * string :=
  match s with
  | EmptyString => (EmptyString, EmptyString)
  | String c r =>
      if Ascii.eqb c "/" then (EmptyString, s)
      else let (run, rest) := spanNotSlash r in (String c run, rest)
  end.

Definition host : string := "github.com/".

(** A match of [/github\.com\/([^/]+)\/([^/]+)/] that starts at the start
    of [s], as its two groups.  The first group is greedy and has a "/"
    after it, so it is the whole run of [[^/]]: a shorter one is followed by
    a character of the run.  The second group is the whole run after that
    "/".  Both runs have at least one character. *)
Definition matchHere (s : string) : option (string * string) :=
  if prefix host s then
    let (group1, rest) := spanNotSlash (substring 11 (String.length s - 11) s) in
    match group1, rest with
    | String _ _, String _ rest' =>
        match spanNotSlash rest' with
        | (String c g, _) => Some (group1, String c g)
        | (EmptyString, _) => None
        end
    | _, _ => None
    end
  else None.

(** [url.match(...)]: the match at the leftmost index that has one. *)
Fixpoint matchUrl (url : string) : option (string * string) :=
  match matchHere url with
  | Some groups => Some groups
  | None =>
      match url with
      | EmptyString => None
      | String _ rest => matchUrl rest
      end
  end.

(** [s.replace(/\.git$/, '')]. *)
Fixpoint removeGitSuffix (s : string) : string :=
  if String.eqb s ".git" then EmptyString
  else match s with
       | EmptyString => EmptyString
       | String c r => String c (removeGitSuffix r)
       end.

Definition parseGithubUrl (url : string) : option OwnerRepo :=
  match matchUrl url with
  | None => None
  | Some (group1, group2) => Some (mkOwnerRepo group1 (removeGitSuffix group2))
  end.

(** A text without "/". *)
Definition slashFree (s : string) : Prop := indexOf s "/" = (-1)%Z.

End GitHubUrl.

(** ** The web platform functions behind decodeBase64

    [atob] is the forgiving-base64 decode of the Infra standard and
    [new TextDecoder().decode] the UTF-8 decode of the Encoding standard,
    without the [fatal] option.  A string is here the list of its UTF-16
    code units, since decoded text leaves the range below 256. *)

Module Platform.

Local Open Scope N_scope.

Definition CodeUnits := list N.

Definition between (lo hi u : N) : bool := (lo <=? u) && (u <=? hi).

(** The characters of [\s]: WhiteSpace and LineTerminator. *)
Definition isSpace (u : N) : bool :=
  between 9 13 u || (u =? 32) || (u =? 160) || (u =? 5760)
  || between 8192 8202 u || (u =? 8232) || (u =? 8233) || (u =? 8239)
  || (u =? 8287) || (u =? 12288) || (u =? 65279).

(** [str.replace(/\s/g, '')]. *)
Definition removeSpaces (str : CodeUnits) : CodeUnits :=
  filter (fun u => negb (isSpace u)) str.

(** *** atob *)

(** ASCII whitespace: TAB, LF, FF, CR and SPACE. *)
Definition isAsciiWhitespace (u : N) : bool :=
  (u =? 9) || (u =? 10) || (u =? 12) || (u =? 13) || (u =? 32).

Definition EQUALS : N := 61.

(** The value of a character of the base64 alphabet. *)
Definition sextet (u : N) : option N :=
  if between 65 90 u then Some (u - 65)
  else if between 97 122 u then Some (u - 71)
  else if between 48 57 u then Some (u + 4)
  else if u =? 43 then Some 62
  else if u =? 47 then Some 63
  else None.

Fixpoint sextets (data : CodeUnits) : option (list N) :=
  match data with
  | [] => Some []
  | u :: rest =>
      match sextet u, sextets rest with
      | Some v, Some vs => Some (v :: vs)
      | _, _ => None
      end
  end.

(** One or two "=" at the end are removed when the length is a multiple
    of 4. *)
Definition dropPadding (data : CodeUnits) : CodeUnits :=
  if N.of_nat (length data) mod 4 =? 0 then
    match rev data with
    | p :: q :: before =>
        if (p =? EQUALS) && (q =? EQUALS) then rev before
        else if p =? EQUALS then rev (q :: before)
        else data
    | [p] => if p =? EQUALS then [] else data
    | [] => data
    end
  else data.

(** The bytes of a run of sextets: 24 bits give three bytes; at the end,
    12 bits give one byte and 18 bits give two, the last bits dropped. *)
Fixpoint decodeSextets (vs : list N) : list N :=
  match vs with
  | a :: b :: c :: d :: rest =>
      let n := ((a * 64 + b) * 64 + c) * 64 + d in
      n / 65536 :: (n / 256) mod 256 :: n mod 256 :: decodeSextets rest
  | [a; b; c] =>
      let n := ((a * 64 + b) * 64 + c) / 4 in
      [n / 256; n mod 256]
  | [a; b] => [(a * 64 + b) / 16]
  | _ => []
  end.

(** The exception of [atob]. *)
Inductive DOMException := InvalidCharacterError.

(** [atob(data)]: a string of characters below 256, or the exception. *)
Definition atob (data : CodeUnits) : Decoded CodeUnits DOMException :=
  let data := filter (fun u => negb (isAsciiWhitespace u)) data in
  let data := dropPadding data in
  if N.of_nat (length data) mod 4 =? 1 then SyntaxError InvalidCharacterError
  else match sextets data with
       | None => SyntaxError InvalidCharacterError
       | Some vs => Parsed (decodeSextets vs)
       end.

(** *** TextDecoder *)

Definition REPLACEMENT : N := 65533.
Definition BOM : N := 65279.

(** A code point under way: its bits so far, the bytes still needed, and
    the bounds of the next byte. *)
Record Pending := mkPending {
  codePoint : N;
  bytesNeeded : nat;
  lowerBoundary : N;
  upperBoundary : N
}.

Inductive Lead :=
| Whole (codePoint : N)
| Begun (p : Pending)
| Invalid.

(** The first byte of a code point. *)
Definition lead (byte : N) : Lead :=
  if byte <=? 127 then Whole byte
  else if between 194 223 byte then Begun (mkPending (byte mod 32) 1 128 191)
  else if between 224 239 byte then
    Begun (mkPending (byte mod 16) 2
                     (if byte =? 224 then 160 else 128)
                     (if byte =? 237 then 159 else 191))
  else if between 240 244 byte then
    Begun (mkPending (byte mod 8) 3
                     (if byte =? 240 then 144 else 128)
                     (if byte =? 244 then 143 else 191))
  else Invalid.

(** The UTF-8 decoder: a byte out of bounds gives U+FFFD and is read again
    as a first byte; so does the end of the bytes inside a code point. *)
Fixpoint utf8From (state : option Pending) (bytes : list N) : list N :=
  match bytes with
  | [] => match state with Some _ => [REPLACEMENT] | None => [] end
  | byte :: rest =>
      let first :=
        match lead byte with
        | Whole c => c :: utf8From None rest
        | Begun p => utf8From (Some p) rest
        | Invalid => REPLACEMENT :: utf8From None rest
        end in
      match state with
      | None => first
      | Some p =>
          if between (lowerBoundary p) (upperBoundary p) byte then
            let c := codePoint p * 64 + byte mod 64 in
            match bytesNeeded p with
            | 1%nat => c :: utf8From None rest
            | needed => utf8From (Some (mkPending c (Nat.pred needed) 128 191)) rest
            end
          else REPLACEMENT :: first
      end
  end.

(** A byte order mark at the start of the text is not part of it. *)
Definition dropMark (codePoints : list N) : list N :=
  match codePoints with
  | c :: rest => if c =? BOM then rest else codePoints
  | [] => []
  end.

(** The code units of a code point. *)
Definition unitsOf (c : N) : CodeUnits :=
  if c <? 65536 then [c]
  else [55296 + (c - 65536) / 1024; 56320 + (c - 65536) mod 1024].

Definition utf16 (codePoints : list N) : CodeUnits := flat_map unitsOf codePoints.

(** [new TextDecoder().decode(bytes)]. *)
Definition decode (bytes : list N) : CodeUnits :=
  utf16 (dropMark (utf8From None bytes)).

(** *** The encodings, as their standards give them *)

(** The character of a base64 value. *)
Definition alphabet (v : N) : N :=
  if v <? 26 then v + 65
  else if v <? 52 then v + 71
  else if v <? 62 then v - 4
  else if v =? 62 then 43
  else 47.

(** Base64 of RFC 4648, with padding. *)
Fixpoint base64 (bytes : list N) : CodeUnits :=
  match bytes with
  | a :: b :: c :: rest =>
      alphabet (a / 4) :: alphabet ((a mod 4) * 16 + b / 16)
      :: alphabet ((b mod 16) * 4 + c / 64) :: alphabet (c mod 64) :: base64 rest
  | [a; b] =>
      [alphabet (a / 4); alphabet ((a mod 4) * 16 + b / 16);
       alphabet ((b mod 16) * 4); EQUALS]
  | [a] => [alphabet (a / 4); alphabet ((a mod 4) * 16); EQUALS; EQUALS]
  | [] => []
  end.

(** The base64 values of some bytes, and the padding after them. *)
Fixpoint sextetsOf (bytes : list N) : list N :=
  match bytes with
  | a :: b :: c :: rest =>
      a / 4 :: (a mod 4) * 16 + b / 16 :: (b mod 16) * 4 + c / 64 :: c mod 64
      :: sextetsOf rest
  | [a; b] => [a / 4; (a mod 4) * 16 + b / 16; (b mod 16) * 4]
  | [a] => [a / 4; (a mod 4) * 16]
  | [] => []
  end.

Fixpoint padding (bytes : list N) : CodeUnits :=
  match bytes with
  | _ :: _ :: _ :: rest => padding rest
  | [_; _] => [EQUALS]
  | [_] => [EQUALS; EQUALS]
  | [] => []
  end.

(** A Unicode scalar value: a code point that is not a surrogate. *)
Definition scalar (c : N) : Prop := c < 55296 \/ 57344 <= c < 1114112.

(** UTF-8 of one scalar value. *)
Definition utf8Of (c : N) : list N :=
  if c <? 128 then [c]
  else if c <? 2048 then [192 + c / 64; 128 + c mod 64]
  else if c <? 65536 then [224 + c / 4096; 128 + (c / 64) mod 64; 128 + c mod 64]
  else [240 + c / 262144; 128 + (c / 4096) mod 64; 128 + (c / 64) mod 64;
        128 + c mod 64].

Definition utf8 (codePoints : list N) : list N := flat_map utf8Of codePoints.

(** The code units of a text of characters below 256. *)
Fixpoint unitsOfString (s : string) : CodeUnits :=
  match s with
  | EmptyString => []
  | String c r => N.of_nat (nat_of_ascii c) :: unitsOfString r
  end.

End Platform.

(** ** decodeBase64 (services/githubService.ts) *)

Module Base64.
Import Platform.

Local Open Scope comp_scope.

Definition Dom := DOMException.

(** [atob(...)] as a computation. *)
Definition callAtob (data : CodeUnits) : Comp Dom CodeUnits :=
  match atob data with
  | Parsed binary => ret binary
  | SyntaxError e => throw (DecoderError e)
  end.

(** [bytes[i] = binary.charCodeAt(i)] into a [Uint8Array]. *)
Definition toBytes (binary : CodeUnits) : list N :=
  map (fun u => (u mod 256)%N) binary.

Definition decodeBase64 (str : CodeUnits) : Comp Dom CodeUnits :=
  tryCatch
    (binary <- callAtob (removeSpaces str) ;;
     ret (decode (toBytes binary)))
    (fun e =>
       consoleError [LogString "Base64 decode failed"; LogThrown e] ;;
       callAtob (removeSpaces str)).

End Base64.

(** ** fetchRepoTree (services/githubService.ts)

    The network is a parameter: the answer to a request, given the
    requests made before it.  The state of a call is the list of the URLs
    requested so far, oldest first. *)

Module GitHubApi.

(** A settled promise. *)
Inductive Settled (A E : Type) :=
| Fulfilled (a : A)
| RejectedWith (e : E).
Arguments Fulfilled {A E} a.
Arguments RejectedWith {A E} e.

Section Api.
Context {E Data Tree : Type}.

(** What [fetchRepoTree] reads of a response: [ok] and [json()]. *)
Record Response := mkResponse {
  ok : bool;
  json : Settled Data E
}.

(** [fetch(url)] after the requests [before]. *)
Variable network : list string -> string -> Settled Response E.

(** [data.tree]: the property, or the exception of reading it. *)
Variable treeOf : Data -> Settled Tree E.

(** A call ends with a value, with an exception of the platform, or with
    [new Error(message)]. *)
Inductive Ending (A : Type) :=
| Value (a : A)
| Native (e : E)
| NewError (message : string).
Arguments Value {A} a.
Arguments Native {A} e.
Arguments NewError {A} message.

Definition treeUrl (owner repo branch : string) : string :=
  "https://api.github.com/repos/" ++ owner ++ "/" ++ repo
  ++ "/git/trees/" ++ branch ++ "?recursive=1".

(** The function with a bound on the depth of its recursion; [None] when
    the bound is reached. *)
Fixpoint fetchRepoTreeWithin (depth : nat) (owner repo branch : string)
         (requests : list string) : option (Ending Tree * list string) :=
  match depth with
  | O => None
  | S depth' =>
      let url := treeUrl owner repo branch in
      let requests' := (requests ++ [url])%list in
      match network requests url with
      | RejectedWith e => Some (Native e, requests')
      | Fulfilled response =>
          if negb (ok response) then
            if String.eqb branch "main"
            then fetchRepoTreeWithin depth' owner repo "master" requests'
            else Some (NewError ("Failed to fetch repository tree for branch: " ++ branch),
                       requests')
          else
            match json response with
            | RejectedWith e => Some (Native e, requests')
            | Fulfilled data =>
                match treeOf data with
                | RejectedWith e => Some (Native e, requests')
                | Fulfilled t => Some (Value t, requests')
                end
            end
      end
  end.

(** [fetchRepoTree(owner, repo, branch)], [branch] defaulting to 'main'. *)
Definition fetchRepoTree (owner repo : string) (branch : option string)
           (requests : list string) : option (Ending Tree * list string) :=
  fetchRepoTreeWithin 2 owner repo
                      (match branch with Some b => b | None => "main" end)
                      requests.

End Api.

Arguments Value {E A} a.
Arguments Native {E A} e.
Arguments NewError {E A} message.

End GitHubApi.

(** ** Wrapped responses *)

Module Wrapping.

(** A language tag: letters only. *)
Definition letters (tag : string) : Prop := dropLetters tag = EmptyString.

(** White space only. *)
Definition blank (s : string) : Prop := trimStart s = EmptyString.

(** A text with neither of two characters. *)
Definition without (c1 c2 : ascii) (s : string) : Prop :=
  indexOf s c1 = (-1)%Z /\ indexOf s c2 = (-1)%Z.

(** A response in a fenced code block: the opening fence with its tag on a
    line, the body, the closing fence on a line, white space around. *)
Definition fencedBlock (before tag body after : string) : string :=
  before ++ fence ++ tag ++ String LF (body ++ String LF fence) ++ after.

(** A bracketed text with other text around it. *)
Definition wrapped (before : string) (opening : ascii) (inside : string)
           (closing : ascii) (after : string) : string :=
  before ++ String opening (inside ++ String closing after).

End Wrapping.

(** ** Sample networks *)

Module ApiSamples.
Import GitHubApi.

Definition notFound : @Response unit (list FileNode) :=
  mkResponse false (RejectedWith tt).

(** A repository whose only branch is 'master'. *)
Definition masterOnly (before : list string) (url : string)
  : Settled (@Response unit (list FileNode)) unit :=
  if String.eqb url (treeUrl "pallets" "flask" "master")
  then Fulfilled (mkResponse true (Fulfilled [file "README.rst"; file "src/flask/app.py"]))
  else Fulfilled notFound.

(** No repository at all. *)
Definition nothingThere (before : list string) (url : string)
  : Settled (@Response unit (list FileNode)) unit :=
  Fulfilled notFound.

(** The body is the tree. *)
Definition bodyTree (data : list FileNode) : Settled (list FileNode) unit :=
  Fulfilled data.

End ApiSamples.

(** ** The analysis steps of the App component (App.tsx) *)

Module App.


(** [resolveActualPath('README.md', tree)]. *)
Definition readmePath (tree : list FileNode) : option string :=
  resolveActualPath "README.md" tree.



(** [s.replace('/', '_')]: a string pattern replaces its first occurrence. *)
Fixpoint replaceFirstSlash (s : string) : string :=
  match s with
  | EmptyString => EmptyString
  | String c r => if Ascii.eqb c "/" then String "_" r else String c (replaceFirstSlash r)
  end.

(** The [download] attribute set by [downloadJson]. *)
Definition downloadName (repoName : string) : string :=
  replaceFirstSlash repoName ++ "_tutorial.json".


End App.

(** ** Entries and their spelling *)

Module Entries.

(** The entry with its path in lower case. *)
Definition lowerCased (n : FileNode) : FileNode :=
  mkFileNode (toLowerCase (path n)) (type n) (sha n) (size n) (url n).

(** An entry of kind file whose lowered full path ends with the lowered
    last two segments of the suggestion. *)
Definition endsWithTail (suggestedPath : string) (n : FileNode) : Prop :=
  type n = blob /\
  exists before, toLowerCase (path n) = before ++ suffix suggestedPath.

(** The suggestion has no white space around it. *)
Definition unpadded (suggestedPath : string) : Prop :=
  trim suggestedPath = suggestedPath.

End Entries.

(** ** Properties of the string primitives *)

Lemma toLowerCaseChar_idem (c : ascii) :
  toLowerCaseChar (toLowerCaseChar c) = toLowerCaseChar c.
Proof. destruct c as [[] [] [] [] [] [] [] []]; reflexivity. Qed.

Lemma toLowerCaseChar_dot (c : ascii) :
  Ascii.eqb (toLowerCaseChar c) "." = Ascii.eqb c ".".
Proof. destruct c as [[] [] [] [] [] [] [] []]; reflexivity. Qed.

Lemma toLowerCase_idem (s : string) : toLowerCase (toLowerCase s) = toLowerCase s.
Proof.
  induction s as [|c r IH]; simpl; [reflexivity|].
  now rewrite toLowerCaseChar_idem, IH.
Qed.

Lemma toLowerCase_app (a b : string) :
  toLowerCase (a ++ b) = toLowerCase a ++ toLowerCase b.
Proof. induction a as [|c r IH]; simpl; [reflexivity|]. now rewrite IH. Qed.

Lemma toLowerCase_length (s : string) :
  String.length (toLowerCase s) = String.length s.
Proof. induction s as [|c r IH]; simpl; congruence. Qed.

Lemma prefix_dot (s : string) :
  prefix "." s = match s with String c _ => Ascii.eqb c "." | EmptyString => false end.
Proof.
  destruct s as [|c r]; [reflexivity|].
  cbn [prefix]. destruct (ascii_dec "." c) as [<-|Hne].
  - now destruct r.
  - symmetry. apply Ascii.eqb_neq. congruence.
Qed.

Lemma includes_dot_toLowerCase (s : string) :
  includes (toLowerCase s) "." = includes s ".".
Proof.
  induction s as [|c r IH]; [reflexivity|].
  cbn [toLowerCase includes]. rewrite !prefix_dot, toLowerCaseChar_dot, IH.
  reflexivity.
Qed.

Lemma prefix_app_iff (p s : string) :
  prefix p s = true <-> exists rest, s = p ++ rest.
Proof.
  revert s. induction p as [|a p IH]; intros s.
  - destruct s; simpl; split; eauto.
  - destruct s as [|b s]; simpl.
    + split; [discriminate | intros [rest H]; discriminate].
    + destruct (ascii_dec a b) as [<-|Hne].
      * rewrite IH. split; intros [rest H]; exists rest; congruence.
      * split; [discriminate | intros [rest H]; congruence].
Qed.

Lemma includes_spec (s p : string) :
  includes s p = true <-> exists before after, s = before ++ p ++ after.
Proof.
  induction s as [|c r IH].
  - cbn [includes]. rewrite orb_false_r, prefix_app_iff. split.
    + intros [rest H]. exists "", rest. exact H.
    + intros (before & after & H). destruct before; [|discriminate]. eauto.
  - cbn [includes]. rewrite orb_true_iff, prefix_app_iff, IH. split.
    + intros [[rest H]|(before & after & H)].
      * exists "", rest. exact H.
      * exists (String c before), after. simpl. congruence.
    + intros (before & after & H). destruct before as [|b before].
      * left. eauto.
      * right. simpl in H. injection H as _ H. eauto.
Qed.

Lemma endsWith_spec (s p : string) :
  endsWith s p = true <-> exists before, s = before ++ p.
Proof.
  induction s as [|c r IH].
  - cbn [endsWith]. rewrite orb_false_r, String.eqb_eq. split.
    + intros <-. now exists "".
    + intros [before H]. destruct before; [exact H | discriminate].
  - cbn [endsWith]. rewrite orb_true_iff, String.eqb_eq, IH. split.
    + intros [<-|[before H]]; [now exists ""|].
      exists (String c before). simpl. congruence.
    + intros [before H]. destruct before as [|b before].
      * left. exact H.
      * right. simpl in H. injection H as _ H. eauto.
Qed.

Lemma split_nonempty (s : string) (sep : ascii) : split s sep <> [].
Proof.
  destruct s as [|c r]; simpl; [discriminate|].
  destruct (Ascii.eqb c sep); [discriminate|].
  destruct (split r sep); discriminate.
Qed.

Lemma join_cons_char (c : ascii) (h : string) (tl : list string) (sp : string) :
  join (String c h :: tl) sp = String c (join (h :: tl) sp).
Proof. destruct tl; reflexivity. Qed.

(** Joining the parts of a split with the separator gives the text back. *)
Lemma split_join (s : string) (sep : ascii) :
  join (split s sep) (String sep "") = s.
Proof.
  induction s as [|c r IH]; [reflexivity|].
  cbn [split]. pose proof (split_nonempty r sep) as Hne.
  destruct (split r sep) as [|h tl]; [contradiction|].
  destruct (Ascii.eqb c sep) eqn:Ec.
  - apply Ascii.eqb_eq in Ec. subst c.
    change (join ("" :: h :: tl) (String sep ""))
      with (String sep (join (h :: tl) (String sep ""))).
    now rewrite IH.
  - now rewrite join_cons_char, IH.
Qed.

Lemma split_no_separator (s : string) (sep : ascii) :
  Forall (fun part => indexOf part sep = (-1)%Z) (split s sep).
Proof.
  induction s as [|c r IH]; [repeat constructor|].
  cbn [split]. pose proof (split_nonempty r sep) as Hne.
  destruct (split r sep) as [|h tl]; [contradiction|].
  destruct (Ascii.eqb c sep) eqn:Ec.
  - constructor; [reflexivity | exact IH].
  - inversion IH as [|x l Hh Htl]; subst. constructor; [|exact Htl].
    cbn [indexOf]. now rewrite Ec, Hh.
Qed.

Lemma append_assoc (a b c : string) : (a ++ b) ++ c = a ++ b ++ c.
Proof. induction a as [|x a IH]; simpl; congruence. Qed.

Lemma join_last (l : list string) (sp : string) :
  l <> [] ->
  join l sp = last l "" \/ exists before, join l sp = before ++ sp ++ last l "".
Proof.
  induction l as [|p l IH]; intros Hne; [contradiction|].
  destruct l as [|q l]; [now left|].
  right. change (join (p :: q :: l) sp) with (p ++ sp ++ join (q :: l) sp).
  change (last (p :: q :: l) "") with (last (q :: l) "").
  destruct IH as [H|[before H]]; [discriminate | | ].
  - exists p. now rewrite H.
  - exists (p ++ sp ++ before). rewrite H. now rewrite !append_assoc.
Qed.

(** The last part of a split has no separator in it, and the text is that
    part alone or ends with the separator followed by it. *)
Lemma split_last (s : string) (sep : ascii) :
  indexOf (lastPart (split s sep)) sep = (-1)%Z /\
  (s = lastPart (split s sep) \/
   exists before, s = before ++ String sep (lastPart (split s sep))).
Proof.
  unfold lastPart. pose proof (split_nonempty s sep) as Hne. split.
  - pose proof (split_no_separator s sep) as Hall.
    rewrite Forall_forall in Hall. apply Hall.
    destruct (exists_last Hne) as (l & x & E). rewrite E, last_last.
    apply in_or_app. right. now left.
  - pose proof (split_join s sep) as Hj.
    destruct (join_last (split s sep) (String sep "") Hne) as [H|[before H]].
    + left. congruence.
    + right. exists before. rewrite <- Hj at 1. exact H.
Qed.

Lemma find_first {A : Type} (p : A -> bool) (pre : list A) (n : A) (post : list A) :
  (forall m, In m pre -> p m = false) -> p n = true ->
  find p (pre ++ n :: post)%list = Some n.
Proof.
  intros Hpre Hn. induction pre as [|a pre IH]; simpl.
  - now rewrite Hn.
  - rewrite (Hpre a (or_introl eq_refl)). apply IH.
    intros m Hm. apply Hpre. now right.
Qed.

Lemma find_first_inv {A : Type} (p : A -> bool) (l : list A) (n : A) :
  find p l = Some n ->
  exists pre post, l = (pre ++ n :: post)%list /\ p n = true /\
                   forall m, In m pre -> p m = false.
Proof.
  induction l as [|a l IH]; simpl; [discriminate|].
  destruct (p a) eqn:Ha.
  - intros [= ->]. exists [], l. repeat split; [assumption | intros m []].
  - intros H. destruct (IH H) as (pre & post & -> & Hn & Hpre).
    exists (a :: pre), post. repeat split; [assumption|].
    intros m [<-|Hm]; [assumption | now apply Hpre].
Qed.

(** ** Properties of resolveActualPath *)

Lemma isBlob_spec (n : FileNode) : isBlob n = true <-> type n = blob.
Proof. unfold isBlob. destruct (type n); simpl; split; congruence. Qed.

Lemma isExact_spec (s : string) (n : FileNode) :
  isExact s n = true <-> exactFile s n.
Proof.
  unfold isExact, exactFile, normalizedSuggested.
  rewrite andb_true_iff, String.eqb_eq, isBlob_spec. tauto.
Qed.

Lemma hasFileName_spec (name : string) (n : FileNode) :
  hasFileName name n = true <-> finalSegmentIs name n.
Proof.
  unfold hasFileName, finalSegmentIs.
  rewrite andb_true_iff, String.eqb_eq, isBlob_spec. tauto.
Qed.

Lemma not_true_false (b : bool) : b <> true -> b = false.
Proof. now destruct b. Qed.

Lemma guard_false (s : string) (t : list FileNode) :
  s <> "" -> t <> [] -> guard s t = false.
Proof.
  intros Hs Ht. unfold guard. apply orb_false_iff. split.
  - now apply String.eqb_neq.
  - destruct t; [contradiction | reflexivity].
Qed.

Lemma app_cons_not_nil {A : Type} (pre : list A) (n : A) (post : list A) :
  (pre ++ n :: post)%list <> [].
Proof. now destruct pre. Qed.

Lemma containsFileName_spec (s : string) (n : FileNode) :
  containsFileName s n = true <-> containsFile s n.
Proof.
  unfold containsFileName, containsFile, substringOf, fileNameOnly, finalSegment, pathParts.
  rewrite andb_true_iff, isBlob_spec, includes_spec. tauto.
Qed.

Lemma find_blob (p : FileNode -> bool) (t : list FileNode) (n : FileNode) :
  (forall m, p m = true -> isBlob m = true) ->
  find p t = Some n -> In n t /\ type n = blob.
Proof.
  intros Hp H. apply find_some in H. destruct H as [Hin Hn].
  split; [assumption | now apply isBlob_spec, Hp].
Qed.

Lemma extensionLoop_blob (exts : list string) (fn : string) (t : list FileNode) (n : FileNode) :
  extensionLoop exts fn t = Some n -> In n t /\ type n = blob.
Proof.
  induction exts as [|ext rest IH]; simpl; [discriminate|].
  destruct (find (hasFileName (target fn ext)) t) as [m|] eqn:E.
  - intros [= <-]. revert E. apply find_blob.
    intros x Hx. unfold hasFileName in Hx. now apply andb_true_iff in Hx.
  - exact IH.
Qed.

(** Every stage hands back an entry of the tree whose kind is file. *)
Lemma stages_blob (s : string) (t : list FileNode) (n : FileNode) :
  exact s t = Some n \/ fileOnlyMatch s t = Some n \/ extensionMatch s t = Some n \/
  suffixMatch s t = Some n \/ partial s t = Some n ->
  In n t /\ type n = blob.
Proof.
  intros [H|[H|[H|[H|H]]]].
  - revert H. apply find_blob. intros x Hx. unfold isExact in Hx.
    now apply andb_true_iff in Hx.
  - revert H. apply find_blob. intros x Hx. unfold hasFileName in Hx.
    now apply andb_true_iff in Hx.
  - revert H. apply extensionLoop_blob.
  - unfold suffixMatch in H. destruct (1 <? length (pathParts s)); [|discriminate].
    revert H. apply find_blob. intros x Hx. unfold hasSuffix in Hx.
    now apply andb_true_iff in Hx.
  - unfold partial in H. destruct (4 <=? String.length (fileNameOnly s)); [|discriminate].
    revert H. apply find_blob. intros x Hx. unfold containsFileName in Hx.
    now apply andb_true_iff in Hx.
Qed.

Lemma extensionLoop_skip (l1 l2 : list string) (fn : string) (t : list FileNode) :
  (forall e, In e l1 -> find (hasFileName (target fn e)) t = None) ->
  extensionLoop (l1 ++ l2)%list fn t = extensionLoop l2 fn t.
Proof.
  induction l1 as [|e l1 IH]; intros H; simpl; [reflexivity|].
  rewrite (H e (or_introl eq_refl)). apply IH. intros x Hx. apply H. now right.
Qed.

Lemma extensionLoop_same (exts : list string) (fn tg : string) (t : list FileNode) :
  exts <> [] -> (forall e, In e exts -> target fn e = tg) ->
  extensionLoop exts fn t = find (hasFileName tg) t.
Proof.
  induction exts as [|e rest IH]; intros Hne H; [contradiction|].
  cbn [extensionLoop]. rewrite (H e (or_introl eq_refl)).
  destruct (find (hasFileName tg) t) as [m|] eqn:E; [reflexivity|].
  destruct rest as [|e' rest']; [reflexivity|].
  apply IH; [discriminate | intros x Hx; apply H; now right].
Qed.

Lemma extensions_lower (e : string) : In e extensions -> toLowerCase e = e.
Proof.
  unfold extensions. simpl.
  intros H. repeat (destruct H as [<-|H]; [reflexivity|]). contradiction.
Qed.

Lemma extensions_cascade : extensions = ("" :: cascadeExtensions)%list.
Proof. reflexivity. Qed.

Lemma append_empty_r (s : string) : s ++ "" = s.
Proof. induction s as [|c r IH]; simpl; congruence. Qed.

Lemma target_plain (s e : string) :
  includes (finalSegment s) "." = false -> In e extensions ->
  target (fileNameOnly s) e = toLowerCase (finalSegment s) ++ e.
Proof.
  intros Hdot He. unfold target, fileNameOnly, pathParts. fold (finalSegment s).
  rewrite includes_dot_toLowerCase, Hdot, toLowerCase_app, toLowerCase_idem.
  now rewrite (extensions_lower e He).
Qed.

Lemma target_dotted (s e : string) :
  includes (finalSegment s) "." = true ->
  target (fileNameOnly s) e = fileNameOnly s.
Proof.
  intros Hdot. unfold target, fileNameOnly, pathParts. fold (finalSegment s).
  now rewrite includes_dot_toLowerCase, Hdot, toLowerCase_idem.
Qed.

Lemma find_none_not {A : Type} (p : A -> bool) (P : A -> Prop) (l : list A) :
  (forall x, p x = true <-> P x) ->
  (forall m, In m l -> ~ P m) -> find p l = None.
Proof.
  intros Hp H. destruct (find p l) as [x|] eqn:E; [|reflexivity].
  apply find_some in E. destruct E as [Hin Hx]. apply Hp in Hx.
  now destruct (H x Hin).
Qed.

Lemma find_first_spec {A : Type} (p : A -> bool) (P : A -> Prop)
      (pre : list A) (n : A) (post : list A) :
  (forall x, p x = true <-> P x) ->
  P n -> (forall m, In m pre -> ~ P m) ->
  find p (pre ++ n :: post)%list = Some n.
Proof.
  intros Hp Hn Hpre. apply find_first.
  - intros m Hm. apply not_true_false. intros Hc. apply Hp in Hc.
    exact (Hpre m Hm Hc).
  - now apply Hp.
Qed.

Lemma finalSegment_empty : finalSegment "" = "".
Proof. reflexivity. Qed.

(** *** Stage 1 *)

(** C1, as amended.  For every non-empty suggested path: when an entry of
    kind file has a lowered full path equal to the lowered and trimmed
    suggestion, the result is the path of the first such entry of the list,
    whatever the other entries are. *)
Theorem exact_match_wins (s : string) (pre : list FileNode) (n : FileNode)
        (post : list FileNode) :
  s <> "" ->
  exactFile s n ->
  (forall m, In m pre -> ~ exactFile s m) ->
  resolveActualPath s (pre ++ n :: post)%list = Some (path n).
Proof.
  intros Hs Hn Hpre. unfold resolveActualPath.
  rewrite guard_false by (assumption || apply app_cons_not_nil).
  unfold exact.
  now rewrite (find_first_spec _ _ pre n post (isExact_spec s) Hn Hpre).
Qed.

(** The exact entry is preferred to an earlier entry that only shares the
    file name. *)
Lemma exact_match_wins_witness :
  exactFile "src/App.ts" (file "SRC/app.ts") /\
  fileOnlyMatch "src/App.ts" [file "lib/app.ts"; file "SRC/app.ts"; file "src/app.ts"]
  = Some (file "lib/app.ts") /\
  resolveActualPath "src/App.ts" [file "lib/app.ts"; file "SRC/app.ts"; file "src/app.ts"]
  = Some "SRC/app.ts".
Proof.
  split; [split; reflexivity|]. split; [reflexivity|].
  apply (exact_match_wins "src/App.ts" [file "lib/app.ts"] (file "SRC/app.ts")
                          [file "src/app.ts"]).
  - discriminate.
  - split; reflexivity.
  - intros m [<-|[]] [_ H]. vm_compute in H. discriminate.
Defined.

(** C1 as stated fails on the empty suggestion: the entry matches it, and
    the precondition check answers null before stage 1. *)
Lemma exact_match_empty_suggestion :
  exactFile "" (file "") /\
  resolveActualPath "" [file ""] = None /\
  resolveActualPath "" [file ""] <> Some (path (file "")).
Proof.
  split; [split; reflexivity|]. split; [reflexivity | discriminate].
Qed.

(** *** The precondition *)

(** C6.  The result is null when the suggested path is the empty string,
    and when the entry list is empty, whatever a stage would have found. *)
Theorem guard_returns_null :
  (forall t : list FileNode, resolveActualPath "" t = None) /\
  (forall s : string, resolveActualPath s [] = None).
Proof.
  split.
  - intros t. reflexivity.
  - intros s. unfold resolveActualPath, guard. simpl.
    now rewrite orb_true_r.
Qed.

(** Every stage would have matched here. *)
Example guard_before_stages :
  exact "" [file ""] = Some (file "") /\ resolveActualPath "" [file ""] = None.
Proof. split; reflexivity. Qed.

(** *** Results are stored paths *)

(** C10.  A non-null result is the path field, as stored, of an entry of
    the supplied list whose kind is file. *)
Theorem result_is_stored_path (s : string) (t : list FileNode) (p : string) :
  resolveActualPath s t = Some p ->
  exists n, In n t /\ type n = blob /\ path n = p.
Proof.
  unfold resolveActualPath. destruct (guard s t); [discriminate|].
  destruct (exact s t) as [n|] eqn:E1.
  { intros [= <-]. exists n. destruct (stages_blob s t n) as [? ?]; auto. }
  destruct (fileOnlyMatch s t) as [n|] eqn:E2.
  { intros [= <-]. exists n. destruct (stages_blob s t n) as [? ?]; auto. }
  destruct (extensionMatch s t) as [n|] eqn:E3.
  { intros [= <-]. exists n. destruct (stages_blob s t n) as [? ?]; auto. }
  destruct (suffixMatch s t) as [n|] eqn:E4.
  { intros [= <-]. exists n. destruct (stages_blob s t n) as [? ?]; auto 6. }
  destruct (partial s t) as [n|] eqn:E5; [|discriminate].
  intros [= <-]. exists n. destruct (stages_blob s t n) as [? ?]; auto 6.
Qed.

(** The stored casing comes back, not the lowered form used to compare. *)
Lemma result_is_stored_path_witness :
  resolveActualPath "docs/readme.md" [dir "docs"; file "Docs/ReadMe.MD"]
  = Some "Docs/ReadMe.MD" /\
  exists n, In n [dir "docs"; file "Docs/ReadMe.MD"] /\ type n = blob /\
            path n = "Docs/ReadMe.MD".
Proof.
  split; [reflexivity|].
  apply (result_is_stored_path "docs/readme.md" [dir "docs"; file "Docs/ReadMe.MD"]).
  reflexivity.
Defined.

(** *** Stage 3 *)

(** With a dotted final segment every round of the extension loop searches
    for the file name of stage 2. *)
Lemma extensionMatch_dotted (s : string) (t : list FileNode) :
  includes (finalSegment s) "." = true ->
  extensionMatch s t = fileOnlyMatch s t.
Proof.
  intros Hdot. unfold extensionMatch, fileOnlyMatch.
  apply extensionLoop_same; [discriminate|].
  intros e _. now apply target_dotted.
Qed.

(** C5.  For a suggested path whose final segment contains a ".", stage 3
    finds what stage 2 finds, and the resolver answers as the resolver that
    skips stage 3 does. *)
Theorem dotted_name_skips_cascade (s : string) (t : list FileNode) :
  includes (finalSegment s) "." = true ->
  extensionMatch s t = fileOnlyMatch s t /\
  resolveActualPath s t = resolveSkippingCascade s t.
Proof.
  intros Hdot. pose proof (extensionMatch_dotted s t Hdot) as E.
  split; [exact E|].
  unfold resolveActualPath, resolveSkippingCascade.
  destruct (guard s t); [reflexivity|].
  destruct (exact s t); [reflexivity|].
  rewrite E. destruct (fileOnlyMatch s t); reflexivity.
Qed.

Lemma dotted_name_skips_cascade_witness :
  includes (finalSegment "src/main.py") "." = true /\
  resolveActualPath "src/main.py" [file "app/pkg/src/main.py.txt"; file "x/src/Main.py.bak"]
  = resolveSkippingCascade "src/main.py" [file "app/pkg/src/main.py.txt"; file "x/src/Main.py.bak"].
Proof.
  split; [reflexivity|].
  apply (dotted_name_skips_cascade "src/main.py"); reflexivity.
Defined.

(** C4, as amended.  For every non-empty suggested path whose final segment
    contains no "." and for which stages 1 and 2 find nothing: stage 3
    appends the extensions of the fixed list in their order, and the result
    is the path of the first entry of kind file whose final segment is the
    file name with the first extension that has such an entry; when no
    extension has one, stage 3 finds nothing. *)
Theorem extension_cascade_order (s : string) (t : list FileNode) :
  s <> "" ->
  includes (finalSegment s) "." = false ->
  exact s t = None ->
  fileOnlyMatch s t = None ->
  (forall tried ext rest pre n post,
      cascadeExtensions = (tried ++ ext :: rest)%list ->
      (forall e m, In e tried -> In m t ->
                   ~ finalSegmentIs (toLowerCase (finalSegment s) ++ e) m) ->
      t = (pre ++ n :: post)%list ->
      finalSegmentIs (toLowerCase (finalSegment s) ++ ext) n ->
      (forall m, In m pre -> ~ finalSegmentIs (toLowerCase (finalSegment s) ++ ext) m) ->
      resolveActualPath s t = Some (path n)) /\
  ((forall e m, In e cascadeExtensions -> In m t ->
                ~ finalSegmentIs (toLowerCase (finalSegment s) ++ e) m) ->
   extensionMatch s t = None).
Proof.
  intros Hs Hdot H1 H2.
  assert (Hskip : forall l, (forall e, In e l -> In e cascadeExtensions) ->
            (forall e m, In e l -> In m t ->
                         ~ finalSegmentIs (toLowerCase (finalSegment s) ++ e) m) ->
            forall e, In e ("" :: l)%list ->
                      find (hasFileName (target (fileNameOnly s) e)) t = None).
  { intros l Hl Hno e [<-|He].
    - rewrite target_plain by (assumption || now left).
      rewrite append_empty_r. exact H2.
    - rewrite target_plain;
        [| assumption | rewrite extensions_cascade; right; now apply Hl].
      apply (find_none_not _ _ _ (hasFileName_spec _)).
      intros m Hm. now apply Hno. }
  split.
  - intros tried ext rest pre n post Hexts Htried Ht Hn Hpre.
    unfold resolveActualPath.
    rewrite guard_false by (assumption || (rewrite Ht; apply app_cons_not_nil)).
    rewrite H1, H2. unfold extensionMatch.
    rewrite extensions_cascade, Hexts.
    change ("" :: tried ++ ext :: rest)%list
      with (("" :: tried) ++ ext :: rest)%list.
    rewrite extensionLoop_skip.
    + cbn [extensionLoop]. rewrite target_plain.
      * rewrite Ht at 1.
        now rewrite (find_first_spec _ _ pre n post (hasFileName_spec _) Hn Hpre).
      * assumption.
      * rewrite extensions_cascade, Hexts. right.
        apply in_or_app. right. now left.
    + apply Hskip; [|assumption].
      intros e He. rewrite Hexts. apply in_or_app. now left.
  - intros Hno. unfold extensionMatch.
    rewrite <- (app_nil_r extensions), extensionLoop_skip; [reflexivity|].
    rewrite extensions_cascade. apply Hskip; [auto | assumption].
Qed.

(** "foo" against foo.ts and foo.js: ".js" comes before ".ts" in the list. *)
Lemma extension_cascade_order_witness :
  includes (finalSegment "foo") "." = false /\
  exact "foo" [file "foo.ts"; file "foo.js"] = None /\
  fileOnlyMatch "foo" [file "foo.ts"; file "foo.js"] = None /\
  resolveActualPath "foo" [file "foo.ts"; file "foo.js"] = Some "foo.js".
Proof.
  repeat (split; [reflexivity|]).
  refine (proj1 (extension_cascade_order "foo" [file "foo.ts"; file "foo.js"] _ _ _ _)
            [".py"] ".js"
            [".ts"; ".md"; ".html"; ".css"; ".json"; ".txt"; ".cpp"; ".h";
             ".java"; ".go"; ".tsx"; ".jsx"]
            [file "foo.ts"] (file "foo.js") [] _ _ _ _ _).
  - discriminate.
  - reflexivity.
  - reflexivity.
  - reflexivity.
  - reflexivity.
  - intros e m [<-|[]] [<-|[<-|[]]] [_ Hc]; vm_compute in Hc; discriminate.
  - reflexivity.
  - split; reflexivity.
  - intros m [<-|[]] [_ Hc]. vm_compute in Hc. discriminate.
Defined.

(** The order of the two entries does not matter. *)
Example extension_cascade_either_order :
  resolveActualPath "foo" [file "foo.ts"; file "foo.js"] = Some "foo.js" /\
  resolveActualPath "foo" [file "foo.js"; file "foo.ts"] = Some "foo.js".
Proof. split; reflexivity. Qed.

(** C4 as stated fails on the empty suggestion: its final segment has no
    ".", stages 1 and 2 have nothing to find, ".py" appended to it is the
    final segment of a file entry, and the precondition check has answered
    null before any stage. *)
Lemma extension_cascade_empty_suggestion :
  includes (finalSegment "") "." = false /\
  exact "" [file ".py"] = None /\
  fileOnlyMatch "" [file ".py"] = None /\
  In ".py" cascadeExtensions /\
  finalSegmentIs (toLowerCase (finalSegment "") ++ ".py") (file ".py") /\
  resolveActualPath "" [file ".py"] = None /\
  resolveActualPath "" [file ".py"] <> Some (path (file ".py")).
Proof.
  repeat split; try reflexivity; try discriminate. simpl. tauto.
Qed.

(** *** Stage 5 *)

Lemma finalSegment_nonempty (s : string) :
  1 <= String.length (finalSegment s) -> s <> "".
Proof. intros H ->. rewrite finalSegment_empty in H. simpl in H. lia. Qed.

(** C7.  When stages 1 to 4 find nothing: with a final segment shorter
    than 4 characters the result is null; with one of at least 4
    characters the result is the path of the first entry of kind file whose
    lowered full path contains the lowered file name, and null when there is
    no such entry. *)
Theorem partial_match_floor (s : string) (t : list FileNode) :
  exact s t = None ->
  fileOnlyMatch s t = None ->
  extensionMatch s t = None ->
  suffixMatch s t = None ->
  (String.length (finalSegment s) < 4 -> resolveActualPath s t = None) /\
  (4 <= String.length (finalSegment s) ->
   (forall pre n post,
       t = (pre ++ n :: post)%list ->
       containsFile s n ->
       (forall m, In m pre -> ~ containsFile s m) ->
       resolveActualPath s t = Some (path n)) /\
   ((forall m, In m t -> ~ containsFile s m) -> resolveActualPath s t = None)).
Proof.
  intros H1 H2 H3 H4.
  assert (Hlen : String.length (fileNameOnly s) = String.length (finalSegment s)).
  { unfold fileNameOnly, pathParts. apply toLowerCase_length. }
  assert (Hres : resolveActualPath s t =
                 if guard s t then None
                 else match partial s t with Some n => Some (path n) | None => None end).
  { unfold resolveActualPath. now rewrite H1, H2, H3, H4. }
  rewrite Hres. unfold partial. rewrite Hlen. split.
  - intros Hlt. apply Nat.leb_gt in Hlt. rewrite Hlt. now destruct (guard s t).
  - intros Hge. pose proof Hge as Hle. apply Nat.leb_le in Hle. rewrite Hle. split.
    + intros pre n post Ht Hn Hpre.
      rewrite guard_false.
      * rewrite Ht.
        now rewrite (find_first_spec _ _ pre n post (containsFileName_spec s) Hn Hpre).
      * apply finalSegment_nonempty. lia.
      * rewrite Ht. apply app_cons_not_nil.
    + intros Hno.
      rewrite (find_none_not _ _ _ (containsFileName_spec s) Hno).
      now destruct (guard s t).
Qed.

Lemma partial_match_floor_witness :
  String.length (finalSegment "util") = 4 /\
  extensionMatch "util" [dir "src"; file "src/StringUtils.ts"; file "src/utility.ts"]
  = None /\
  resolveActualPath "util" [dir "src"; file "src/StringUtils.ts"; file "src/utility.ts"]
  = Some "src/StringUtils.ts".
Proof.
  repeat (split; [reflexivity|]).
  refine (proj1 (proj2 (partial_match_floor "util"
              [dir "src"; file "src/StringUtils.ts"; file "src/utility.ts"] _ _ _ _) _)
            [dir "src"] (file "src/StringUtils.ts") [file "src/utility.ts"] _ _ _).
  - reflexivity.
  - reflexivity.
  - reflexivity.
  - reflexivity.
  - simpl. lia.
  - reflexivity.
  - split; [reflexivity|]. now exists "src/string", "s.ts".
  - intros m [<-|[]] [Hc _]. discriminate.
Defined.

(** Three characters are below the floor, four are not. *)
Example partial_match_floor_3_4 :
  resolveActualPath "abc" [file "lib/xabcx.txt"] = None /\
  resolveActualPath "abcd" [file "lib/xabcdx.txt"] = Some "lib/xabcdx.txt".
Proof. split; reflexivity. Qed.

(** ** Properties of indexOf, lastIndexOf and slice *)

Lemma indexOf_range (s : string) (c : ascii) :
  (-1 <= indexOf s c < Z.of_nat (String.length s))%Z.
Proof.
  induction s as [|a r IH]; simpl; [lia|].
  destruct (Ascii.eqb a c); [lia|].
  destruct (indexOf r c =? -1)%Z eqn:E; lia.
Qed.

Lemma lastIndexOf_range (s : string) (c : ascii) :
  (-1 <= lastIndexOf s c < Z.of_nat (String.length s))%Z.
Proof.
  induction s as [|a r IH]; simpl; [lia|].
  destruct (lastIndexOf r c =? -1)%Z eqn:E; [|lia].
  destruct (Ascii.eqb a c); lia.
Qed.

Lemma indexOf_absent (s : string) (c : ascii) :
  indexOf s c = (-1)%Z <-> absent s c.
Proof.
  unfold absent. induction s as [|a r IH]; simpl.
  - split; [intros _ j; now destruct j | reflexivity].
  - destruct (Ascii.eqb a c) eqn:Ea.
    + apply Ascii.eqb_eq in Ea. subst a. split; [discriminate|].
      intros H. now destruct (H 0).
    + apply Ascii.eqb_neq in Ea.
      destruct (indexOf r c =? -1)%Z eqn:E.
      * apply Z.eqb_eq in E. split; [|reflexivity].
        intros _ [|j]; simpl; [congruence | now apply IH].
      * apply Z.eqb_neq in E. pose proof (indexOf_range r c) as Hr. split; [lia|].
        intros H. exfalso. apply E, IH. intros j. exact (H (S j)).
Qed.

Lemma indexOf_firstAt (s : string) (c : ascii) (i : Z) :
  (i <> -1)%Z -> indexOf s c = i -> firstAt s c i.
Proof.
  unfold firstAt. revert i. induction s as [|a r IH]; simpl; intros i Hi H.
  - congruence.
  - destruct (Ascii.eqb a c) eqn:Ea.
    + apply Ascii.eqb_eq in Ea. subst. simpl.
      repeat split; [lia | intros j Hj; lia].
    + apply Ascii.eqb_neq in Ea.
      destruct (indexOf r c =? -1)%Z eqn:E; [congruence|].
      apply Z.eqb_neq in E. pose proof (indexOf_range r c) as Hr.
      destruct (IH (indexOf r c) E eq_refl) as (_ & Hget & Hbefore).
      subst i. replace (Z.to_nat (indexOf r c + 1)) with (S (Z.to_nat (indexOf r c))) by lia.
      repeat split; [lia | exact Hget |].
      intros [|j] Hj; simpl; [congruence | apply Hbefore; lia].
Qed.

Lemma lastIndexOf_absent (s : string) (c : ascii) :
  lastIndexOf s c = (-1)%Z <-> absent s c.
Proof.
  unfold absent. induction s as [|a r IH]; simpl.
  - split; [intros _ j; now destruct j | reflexivity].
  - destruct (lastIndexOf r c =? -1)%Z eqn:E.
    + apply Z.eqb_eq in E. destruct (Ascii.eqb a c) eqn:Ea.
      * apply Ascii.eqb_eq in Ea. subst a. split; [discriminate|].
        intros H. now destruct (H 0).
      * apply Ascii.eqb_neq in Ea. split; [|reflexivity].
        intros _ [|j]; simpl; [congruence | now apply IH].
    + apply Z.eqb_neq in E. pose proof (lastIndexOf_range r c) as Hr. split; [lia|].
      intros H. exfalso. apply E, IH. intros j. exact (H (S j)).
Qed.

Lemma lastIndexOf_lastAt (s : string) (c : ascii) (i : Z) :
  (i <> -1)%Z -> lastIndexOf s c = i -> lastAt s c i.
Proof.
  unfold lastAt. revert i. induction s as [|a r IH]; simpl; intros i Hi H.
  - congruence.
  - destruct (lastIndexOf r c =? -1)%Z eqn:E.
    + apply Z.eqb_eq in E. destruct (Ascii.eqb a c) eqn:Ea; [|congruence].
      apply Ascii.eqb_eq in Ea. subst. simpl. repeat split; [lia|].
      intros [|j] Hj; [lia|]. simpl. now apply lastIndexOf_absent.
    + apply Z.eqb_neq in E. pose proof (lastIndexOf_range r c) as Hr.
      destruct (IH (lastIndexOf r c) E eq_refl) as (_ & Hget & Hafter).
      subst i.
      replace (Z.to_nat (lastIndexOf r c + 1)) with (S (Z.to_nat (lastIndexOf r c))) by lia.
      repeat split; [lia | exact Hget |].
      intros [|j] Hj; [lia|]. simpl. apply Hafter. lia.
Qed.

Lemma slice_inclusive (s : string) (i j : Z) :
  (0 <= i)%Z -> (i < j)%Z -> (j < Z.of_nat (String.length s))%Z ->
  slice s i (j + 1) = substring (Z.to_nat i) (Z.to_nat (j - i + 1)) s.
Proof.
  intros Hi Hij Hj. unfold slice.
  destruct (i <? 0)%Z eqn:E1; [apply Z.ltb_lt in E1; lia|].
  destruct (j + 1 <? 0)%Z eqn:E2; [apply Z.ltb_lt in E2; lia|].
  f_equal; lia.
Qed.

(** ** Properties of safeJsonParse *)

Section RecoveryFacts.
Context {V D : Type} (decode : Decoder V D).

Lemma sliceable_spec (text : string) :
  sliceable text = true <->
  (start text <> -1 /\ end_ text <> -1 /\ start text < end_ text)%Z.
Proof.
  unfold sliceable.
  rewrite !andb_true_iff, !negb_true_iff, !Z.eqb_neq, Z.gtb_ltb, Z.ltb_lt.
  tauto.
Qed.

Lemma start_range (text : string) :
  (-1 <= start text < Z.of_nat (String.length text))%Z.
Proof.
  unfold start, startObj, startArr.
  pose proof (indexOf_range text "{"). pose proof (indexOf_range text "[").
  destruct (_ && _); lia.
Qed.

Lemma end_range (text : string) :
  (-1 <= end_ text < Z.of_nat (String.length text))%Z.
Proof.
  unfold end_, endObj, endArr.
  pose proof (lastIndexOf_range text "}"). pose proof (lastIndexOf_range text "]").
  destruct (_ && _); lia.
Qed.

(** The first attempt succeeds: nothing is written, the value is returned. *)
Lemma safeJsonParse_direct (text : string) (c : Console D) (v : V) :
  decode (cleaned text) = Parsed v ->
  safeJsonParse decode text c = (Return v, c).
Proof.
  intros H. unfold safeJsonParse, tryCatch, direct, JSON_parse. now rewrite H.
Qed.

(** The first attempt throws: the outer [catch] runs. *)
Lemma safeJsonParse_fallback (text : string) (c : Console D) (e : D) :
  decode (cleaned text) = SyntaxError e ->
  safeJsonParse decode text c =
  if sliceable text then
    match decode (sliced text) with
    | Parsed v => (Return v, (c ++ [rawTextLine text])%list)
    | SyntaxError e' =>
        (Throw MalformedResponse,
         (c ++ [rawTextLine text; nestedLine (DecoderError e')])%list)
    end
  else (Throw MalformedResponse, (c ++ [rawTextLine text])%list).
Proof.
  intros H.
  unfold safeJsonParse, tryCatch, direct, nested, JSON_parse, bind, consoleError,
    tryCatch, ret, throw.
  rewrite H. destruct (sliceable text); [|reflexivity].
  destruct (decode (sliced text)); [reflexivity|].
  now rewrite <- app_assoc.
Qed.

(** The inner [try ... catch] never throws. *)
Lemma nested_returns (text : string) (c : Console D) :
  exists r c', nested decode text c = (Return r, c').
Proof.
  unfold nested, tryCatch, JSON_parse, bind, consoleError, ret, throw.
  destruct (sliceable text); [|eauto].
  destruct (decode (sliced text)); eauto.
Qed.

(** *** Strategy B *)

(** C3.  When the parse of the first attempt fails: the start index is
    the index of the first "{" if there is one and there is no "[" or the
    "{" comes before it, and the index of the first "[" otherwise; the
    end index is, in the same way, the later of the last "}" and the last
    "]"; the text from start to end inclusive is parsed exactly when both
    indices exist and end is greater than start, and nothing is parsed
    otherwise. *)
Theorem boundary_slice_rule (text : string) (c : Console D) (e : D) :
  decode (cleaned text) = SyntaxError e ->
  ((startObj text <> -1 /\ (startArr text = -1 \/ startObj text < startArr text)
    -> start text = startObj text /\ firstAt text "{" (start text)) /\
   (~ (startObj text <> -1 /\ (startArr text = -1 \/ startObj text < startArr text))
    -> start text = startArr text /\
       (start text <> -1 -> firstAt text "[" (start text))))%Z /\
  ((endObj text <> -1 /\ (endArr text = -1 \/ endObj text > endArr text)
    -> end_ text = endObj text /\ lastAt text "}" (end_ text)) /\
   (~ (endObj text <> -1 /\ (endArr text = -1 \/ endObj text > endArr text))
    -> end_ text = endArr text /\
       (end_ text <> -1 -> lastAt text "]" (end_ text))) /\
   end_ text = Z.max (endObj text) (endArr text))%Z /\
  ((start text <> -1 /\ end_ text <> -1 /\ start text < end_ text)%Z ->
   sliced text
   = substring (Z.to_nat (start text)) (Z.to_nat (end_ text - start text + 1)) text /\
   safeJsonParse decode text c =
   match decode (sliced text) with
   | Parsed v => (Return v, (c ++ [rawTextLine text])%list)
   | SyntaxError e' =>
       (Throw MalformedResponse,
        (c ++ [rawTextLine text; nestedLine (DecoderError e')])%list)
   end) /\
  (~ (start text <> -1 /\ end_ text <> -1 /\ start text < end_ text)%Z ->
   safeJsonParse decode text c
   = (Throw MalformedResponse, (c ++ [rawTextLine text])%list)).
Proof.
  intros HA.
  assert (Hs : forall b : bool, b = true \/ b = false) by (intros []; auto).
  split; [|split; [|split]].
  - unfold start. split.
    + intros [H1 H2].
      assert (E : negb (startObj text =? -1)%Z
                  && ((startArr text =? -1)%Z || (startObj text <? startArr text)%Z)
                  = true).
      { rewrite andb_true_iff, negb_true_iff, orb_true_iff, Z.eqb_neq, Z.eqb_eq, Z.ltb_lt.
        tauto. }
      rewrite E. split; [reflexivity|]. now apply indexOf_firstAt.
    + intros Hn.
      assert (E : negb (startObj text =? -1)%Z
                  && ((startArr text =? -1)%Z || (startObj text <? startArr text)%Z)
                  = false).
      { apply not_true_false. intros E. apply Hn. revert E.
        rewrite andb_true_iff, negb_true_iff, orb_true_iff, Z.eqb_neq, Z.eqb_eq, Z.ltb_lt.
        tauto. }
      rewrite E. split; [reflexivity|]. intros Hne. now apply indexOf_firstAt.
  - pose proof (lastIndexOf_range text "}") as Ro.
    pose proof (lastIndexOf_range text "]") as Ra.
    fold (endObj text) in Ro. fold (endArr text) in Ra.
    unfold end_. split; [|split].
    + intros [H1 H2].
      assert (E : negb (endObj text =? -1)%Z
                  && ((endArr text =? -1)%Z || (endObj text >? endArr text)%Z)
                  = true).
      { rewrite andb_true_iff, negb_true_iff, orb_true_iff, Z.eqb_neq, Z.eqb_eq,
          Z.gtb_ltb, Z.ltb_lt. lia. }
      rewrite E. split; [reflexivity|]. now apply lastIndexOf_lastAt.
    + intros Hn.
      assert (E : negb (endObj text =? -1)%Z
                  && ((endArr text =? -1)%Z || (endObj text >? endArr text)%Z)
                  = false).
      { apply not_true_false. intros E. apply Hn. revert E.
        rewrite andb_true_iff, negb_true_iff, orb_true_iff, Z.eqb_neq, Z.eqb_eq,
          Z.gtb_ltb, Z.ltb_lt. lia. }
      rewrite E. split; [reflexivity|]. intros Hne. now apply lastIndexOf_lastAt.
    + destruct (negb (endObj text =? -1)%Z
                && ((endArr text =? -1)%Z || (endObj text >? endArr text)%Z)) eqn:E.
      * revert E.
        rewrite andb_true_iff, negb_true_iff, orb_true_iff, Z.eqb_neq, Z.eqb_eq,
          Z.gtb_ltb, Z.ltb_lt. lia.
      * destruct (Z.eq_dec (endObj text) (-1)) as [Eo|Eo]; [lia|].
        destruct (Z.eq_dec (endArr text) (-1)) as [Ea|Ea].
        { exfalso. revert E. rewrite Ea. apply Z.eqb_neq in Eo. rewrite Eo.
          discriminate. }
        destruct (Z.ltb_spec (endArr text) (endObj text)) as [Hlt|Hge]; [|lia].
        exfalso. revert E. apply Z.eqb_neq in Eo. rewrite Eo.
        rewrite Z.gtb_ltb. apply Z.ltb_lt in Hlt. rewrite Hlt.
        rewrite orb_true_r. discriminate.
  - intros Hok. pose proof (start_range text). pose proof (end_range text).
    split.
    + unfold sliced. apply slice_inclusive; lia.
    + rewrite (safeJsonParse_fallback text c e HA).
      apply sliceable_spec in Hok. now rewrite Hok.
  - intros Hno. rewrite (safeJsonParse_fallback text c e HA).
    replace (sliceable text) with false; [reflexivity|].
    symmetry. apply not_true_false. intros Hc. now apply Hno, sliceable_spec.
Qed.

(** *** Terminal failure *)

(** C2, as amended.  When both attempts fail, the failure is the [Error]
    with the fixed message, whatever the text; the raw text is written to
    the console by the outer [catch] and is not in the failure value. *)
Theorem terminal_failure (text : string) (c : Console D) (e : D) :
  decode (cleaned text) = SyntaxError e ->
  (sliceable text = false \/ exists e', decode (sliced text) = SyntaxError e') ->
  exists lines,
    safeJsonParse decode text c
    = (Throw (Error malformedMessage), (c ++ rawTextLine text :: lines)%list) /\
    (lines = [] \/ exists e', lines = [nestedLine (DecoderError e')]).
Proof.
  intros HA HB. rewrite (safeJsonParse_fallback text c e HA).
  destruct (sliceable text).
  - destruct HB as [HB|[e' HB]]; [discriminate|]. rewrite HB.
    exists [nestedLine (DecoderError e')]. split; [reflexivity|]. right. eauto.
  - exists []. split; [reflexivity | now left].
Qed.

(** *** Exceptions *)

(** C9.  A call returns a value or throws [MalformedResponse]: an
    exception of the decoder in the first attempt is caught and leads to
    the second attempt, one in the second attempt is caught inside it, and
    no exception of the decoder leaves [safeJsonParse]. *)
Theorem only_malformed_response_escapes (text : string) (c : Console D) :
  match fst (safeJsonParse decode text c) with
  | Return _ => True
  | Throw thrown => thrown = MalformedResponse
  end /\
  (forall d, fst (safeJsonParse decode text c) <> Throw (DecoderError d)) /\
  (forall d, direct decode text c = (Throw (DecoderError d), c) ->
             safeJsonParse decode text c =
             bind (nested decode text)
                  (fun r => match r with
                            | Some v => ret v
                            | None => throw MalformedResponse
                            end)
                  (c ++ [rawTextLine text])%list) /\
  (forall c0, exists r c', nested decode text c0 = (Return r, c')).
Proof.
  assert (H : match fst (safeJsonParse decode text c) with
              | Return _ => True
              | Throw thrown => thrown = MalformedResponse
              end).
  { destruct (decode (cleaned text)) as [v|e] eqn:HA.
    - now rewrite (safeJsonParse_direct text c v HA).
    - rewrite (safeJsonParse_fallback text c e HA).
      destruct (sliceable text); [|reflexivity].
      destruct (decode (sliced text)); simpl; auto. }
  split; [exact H|]. split; [|split].
  - intros d Hd. rewrite Hd in H. discriminate.
  - intros d Hd. unfold safeJsonParse, tryCatch. rewrite Hd. reflexivity.
  - intros c0. apply nested_returns.
Qed.

(** *** Determinism *)

(** C8.  Equal inputs give equal results.  For resolveActualPath the
    result is a function of its two arguments.  For safeJsonParse the
    outcome (a value or a failure) and the lines written are determined
    by the text alone: the console left by earlier calls has no influence,
    and a second call on the same text ends as the first. *)
Theorem deterministic :
  (forall s1 s2 t1 t2, s1 = s2 -> t1 = t2 ->
                       resolveActualPath s1 t1 = resolveActualPath s2 t2) /\
  (forall text, exists outcome lines, forall c,
        safeJsonParse decode text c = (outcome, (c ++ lines)%list)) /\
  (forall text1 text2 c1 c2, text1 = text2 ->
        fst (safeJsonParse decode text1 c1) = fst (safeJsonParse decode text2 c2)) /\
  (forall text c,
        fst (safeJsonParse decode text (snd (safeJsonParse decode text c)))
        = fst (safeJsonParse decode text c)).
Proof.
  assert (H : forall text, exists outcome lines, forall c,
                safeJsonParse decode text c = (outcome, (c ++ lines)%list)).
  { intros text. destruct (decode (cleaned text)) as [v|e] eqn:HA.
    - exists (Return v), []. intros c. rewrite app_nil_r.
      now apply safeJsonParse_direct.
    - destruct (sliceable text) eqn:Hs.
      + destruct (decode (sliced text)) as [v|e'] eqn:HB.
        * exists (Return v), [rawTextLine text]. intros c.
          rewrite (safeJsonParse_fallback text c e HA), Hs, HB. reflexivity.
        * exists (Throw MalformedResponse),
            [rawTextLine text; nestedLine (DecoderError e')].
          intros c.
          rewrite (safeJsonParse_fallback text c e HA), Hs, HB. reflexivity.
      + exists (Throw MalformedResponse), [rawTextLine text]. intros c.
        rewrite (safeJsonParse_fallback text c e HA), Hs. reflexivity. }
  split; [intros; subst; reflexivity|]. split; [exact H|]. split.
  - intros text1 text2 c1 c2 <-. destruct (H text1) as (o & l & Ho).
    now rewrite !Ho.
  - intros text c. destruct (H text) as (o & l & Ho). now rewrite !Ho.
Qed.

End RecoveryFacts.

(** ** safeJsonParse on the sample responses *)

Example fence_stripping :
  safeJsonParse Json.parse Samples.fenced [] = (Return Samples.objectValue, []).
Proof. reflexivity. Qed.

Example boundary_slice_recovery :
  safeJsonParse Json.parse Samples.proseWrapped []
  = (Return Samples.objectValue, [rawTextLine Samples.proseWrapped]).
Proof. reflexivity. Qed.

Lemma boundary_slice_rule_witness :
  Json.parse (cleaned Samples.proseWrapped) = SyntaxError Json.unexpected /\
  (start Samples.proseWrapped = 20 /\ end_ Samples.proseWrapped = 26)%Z /\
  sliced Samples.proseWrapped = Samples.objectText /\
  safeJsonParse Json.parse Samples.proseWrapped []
  = (Return Samples.objectValue, [rawTextLine Samples.proseWrapped]).
Proof.
  pose proof (boundary_slice_rule Json.parse Samples.proseWrapped []
                                  Json.unexpected eq_refl)
    as (_ & _ & Hslice & _).
  assert (Hok : (start Samples.proseWrapped <> -1 /\
                 end_ Samples.proseWrapped <> -1 /\
                 start Samples.proseWrapped < end_ Samples.proseWrapped)%Z)
    by (vm_compute; repeat split; discriminate).
  destruct (Hslice Hok) as [Hsub Hrun].
  split; [reflexivity|]. split; [split; reflexivity|].
  split; [rewrite Hsub; reflexivity | rewrite Hrun; reflexivity].
Defined.

Lemma terminal_failure_witness :
  Json.parse (cleaned Samples.noJson) = SyntaxError Json.unexpected /\
  sliceable Samples.noJson = false /\
  exists lines,
    safeJsonParse Json.parse Samples.noJson []
    = (Throw (Error malformedMessage), ([] ++ rawTextLine Samples.noJson :: lines)%list) /\
    (lines = [] \/ exists e', lines = [nestedLine (DecoderError e')]).
Proof.
  split; [reflexivity|]. split; [reflexivity|].
  exact (terminal_failure Json.parse Samples.noJson [] Json.unexpected
                          eq_refl (or_introl eq_refl)).
Defined.

(** C2 as stated fails: on a text that both attempts reject, the failure
    value is the [Error] with the fixed message; the text is not its
    message and does not occur in it, another rejected text gives the very
    same failure value, and the text is on the console only. *)
Lemma terminal_failure_drops_raw_text :
  Json.parse (cleaned Samples.noJson) = SyntaxError Json.unexpected /\
  sliceable Samples.noJson = false /\
  safeJsonParse Json.parse Samples.noJson []
  = (Throw (Error malformedMessage), [rawTextLine Samples.noJson]) /\
  carriedText (@Error string malformedMessage) <> Some Samples.noJson /\
  includes malformedMessage Samples.noJson = false /\
  fst (safeJsonParse Json.parse Samples.brokenSlice [])
  = fst (safeJsonParse Json.parse Samples.noJson []).
Proof.
  repeat split; try reflexivity. discriminate.
Qed.

Lemma only_malformed_response_escapes_witness :
  direct Json.parse Samples.brokenSlice []
  = (Throw (DecoderError Json.unexpected), []) /\
  safeJsonParse Json.parse Samples.brokenSlice []
  = bind (nested Json.parse Samples.brokenSlice)
         (fun r => match r with
                   | Some v => ret v
                   | None => throw MalformedResponse
                   end)
         ([] ++ [rawTextLine Samples.brokenSlice])%list.
Proof.
  split; [reflexivity|].
  exact (proj1 (proj2 (proj2 (only_malformed_response_escapes
                                Json.parse Samples.brokenSlice [])))
               Json.unexpected eq_refl).
Defined.

Lemma deterministic_witness :
  resolveActualPath "foo" [file "foo.ts"; file "foo.js"]
  = resolveActualPath "foo" [file "foo.ts"; file "foo.js"] /\
  fst (safeJsonParse Json.parse Samples.fenced [])
  = fst (safeJsonParse Json.parse Samples.fenced [rawTextLine Samples.noJson]) /\
  fst (safeJsonParse Json.parse Samples.proseWrapped
         (snd (safeJsonParse Json.parse Samples.proseWrapped [])))
  = fst (safeJsonParse Json.parse Samples.proseWrapped []).
Proof.
  destruct (deterministic Json.parse) as (Hr & _ & Hc & Ht).
  split; [exact (Hr "foo" "foo" _ _ eq_refl eq_refl)|].
  split; [exact (Hc Samples.fenced Samples.fenced _ _ eq_refl) | exact (Ht _ _)].
Defined.

(** ** More on resolveActualPath *)

Import Entries.

Lemma find_ext {A : Type} (p q : A -> bool) (l : list A) :
  (forall x, p x = q x) -> find p l = find q l.
Proof.
  intros H. induction l as [|a l IH]; simpl; [reflexivity|].
  now rewrite H, IH.
Qed.

Lemma find_map {A B : Type} (f : A -> B) (p : B -> bool) (l : list A) :
  find p (map f l) = option_map f (find (fun x => p (f x)) l).
Proof.
  induction l as [|a l IH]; simpl; [reflexivity|].
  destruct (p (f a)); [reflexivity | exact IH].
Qed.

Lemma find_filter {A : Type} (p q : A -> bool) (l : list A) :
  (forall x, p x = true -> q x = true) -> find p (filter q l) = find p l.
Proof.
  intros H. induction l as [|a l IH]; simpl; [reflexivity|].
  destruct (q a) eqn:Eq; simpl.
  - destruct (p a); [reflexivity | exact IH].
  - destruct (p a) eqn:Ep; [|exact IH].
    apply H in Ep. congruence.
Qed.

Lemma toLowerCaseChar_slash (c : ascii) :
  Ascii.eqb (toLowerCaseChar c) "/" = Ascii.eqb c "/".
Proof. destruct c as [[] [] [] [] [] [] [] []]; reflexivity. Qed.

Lemma split_toLowerCase (s : string) :
  split (toLowerCase s) "/" = map toLowerCase (split s "/").
Proof.
  induction s as [|c r IH]; [reflexivity|].
  cbn [toLowerCase split]. rewrite toLowerCaseChar_slash, IH.
  destruct (Ascii.eqb c "/"); [reflexivity|].
  destruct (split r "/"); reflexivity.
Qed.

Lemma lastPart_map_toLowerCase (l : list string) :
  lastPart (map toLowerCase l) = toLowerCase (lastPart l).
Proof.
  unfold lastPart. induction l as [|a l IH]; [reflexivity|].
  destruct l as [|b l]; [reflexivity|]. exact IH.
Qed.

Lemma toLowerCase_join (l : list string) (sp : string) :
  toLowerCase (join l sp) = join (map toLowerCase l) (toLowerCase sp).
Proof.
  induction l as [|a l IH]; [reflexivity|].
  destruct l as [|b l]; [reflexivity|].
  change (join (a :: b :: l) sp) with (a ++ sp ++ join (b :: l) sp).
  rewrite !toLowerCase_app, IH. reflexivity.
Qed.

Lemma arraySlice_map {A B : Type} (f : A -> B) (l : list A) (k : Z) :
  arraySlice (map f l) k = map f (arraySlice l k).
Proof. unfold arraySlice. now rewrite length_map, skipn_map. Qed.

(** What the resolver reads of the suggestion is unchanged by lowering it. *)
Lemma suggestion_parts_toLowerCase (s : string) :
  normalizedSuggested (toLowerCase s) = normalizedSuggested s /\
  fileNameOnly (toLowerCase s) = fileNameOnly s /\
  length (pathParts (toLowerCase s)) = length (pathParts s) /\
  suffix (toLowerCase s) = suffix s.
Proof.
  unfold normalizedSuggested, fileNameOnly, suffix, pathParts.
  rewrite split_toLowerCase, lastPart_map_toLowerCase, !toLowerCase_idem.
  rewrite length_map, arraySlice_map.
  repeat split.
  rewrite !toLowerCase_join, map_map. f_equal.
  apply map_ext. intros a. apply toLowerCase_idem.
Qed.

(** X1.  The suggestion is read without regard to case: lowering it first
    changes no result. *)
Theorem suggestion_case_is_ignored (s : string) (t : list FileNode) :
  resolveActualPath (toLowerCase s) t = resolveActualPath s t.
Proof.
  destruct (suggestion_parts_toLowerCase s) as (Hn & Hf & Hl & Hs).
  assert (Hg : guard (toLowerCase s) t = guard s t).
  { unfold guard. now destruct s. }
  unfold resolveActualPath, exact, isExact, fileOnlyMatch, extensionMatch,
    suffixMatch, hasSuffix, partial, containsFileName.
  now rewrite Hg, Hn, Hf, Hl, Hs.
Qed.

(** *** The spelling of the stored paths *)

Lemma find_lowerCased (p : FileNode -> bool) (t : list FileNode) :
  (forall n, p (lowerCased n) = p n) ->
  find p (map lowerCased t) = option_map lowerCased (find p t).
Proof.
  intros H. rewrite find_map. f_equal. now apply find_ext.
Qed.

Lemma isBlob_lowerCased (n : FileNode) : isBlob (lowerCased n) = isBlob n.
Proof. reflexivity. Qed.

Lemma hasFileName_lowerCased (name : string) (n : FileNode) :
  hasFileName name (lowerCased n) = hasFileName name n.
Proof. unfold hasFileName. simpl. now rewrite toLowerCase_idem. Qed.

Lemma extensionLoop_lowerCased (exts : list string) (fn : string) (t : list FileNode) :
  extensionLoop exts fn (map lowerCased t)
  = option_map lowerCased (extensionLoop exts fn t).
Proof.
  induction exts as [|e exts IH]; [reflexivity|].
  cbn [extensionLoop].
  rewrite find_lowerCased by (intros n; apply hasFileName_lowerCased).
  destruct (find (hasFileName (target fn e)) t); [reflexivity | exact IH].
Qed.

(** X2.  Only the lowered form of the stored paths is compared: on the tree
    whose paths are written in lower case the resolver finds the same
    entries, and answers their paths in lower case. *)
Theorem stored_case_is_ignored (s : string) (t : list FileNode) :
  resolveActualPath s (map lowerCased t)
  = option_map toLowerCase (resolveActualPath s t).
Proof.
  assert (Hg : guard s (map lowerCased t) = guard s t).
  { unfold guard. now rewrite length_map. }
  unfold resolveActualPath. rewrite Hg. destruct (guard s t); [reflexivity|].
  unfold exact, fileOnlyMatch, extensionMatch, suffixMatch, partial.
  rewrite find_lowerCased
    by (intros n; unfold isExact; simpl; now rewrite toLowerCase_idem).
  destruct (find (isExact s) t); [reflexivity|]. cbn [option_map].
  rewrite find_lowerCased by (intros n; apply hasFileName_lowerCased).
  destruct (find (hasFileName (fileNameOnly s)) t); [reflexivity|]. cbn [option_map].
  rewrite extensionLoop_lowerCased.
  destruct (extensionLoop extensions (fileNameOnly s) t); [reflexivity|]. cbn [option_map].
  assert (H4 : (if 1 <? length (pathParts s)
                then find (hasSuffix s) (map lowerCased t) else None)
               = option_map lowerCased
                   (if 1 <? length (pathParts s) then find (hasSuffix s) t else None)).
  { destruct (1 <? length (pathParts s)); [|reflexivity].
    apply find_lowerCased. intros n. unfold hasSuffix. simpl.
    now rewrite toLowerCase_idem. }
  rewrite H4.
  destruct (if 1 <? length (pathParts s) then find (hasSuffix s) t else None);
    [reflexivity|]. cbn [option_map].
  assert (H5 : (if 4 <=? String.length (fileNameOnly s)
                then find (containsFileName s) (map lowerCased t) else None)
               = option_map lowerCased
                   (if 4 <=? String.length (fileNameOnly s)
                    then find (containsFileName s) t else None)).
  { destruct (4 <=? String.length (fileNameOnly s)); [|reflexivity].
    apply find_lowerCased. intros n. unfold containsFileName. simpl.
    now rewrite toLowerCase_idem. }
  rewrite H5.
  destruct (if 4 <=? String.length (fileNameOnly s)
            then find (containsFileName s) t else None); reflexivity.
Qed.

(** *** Directories *)

Lemma extensionLoop_filter (exts : list string) (fn : string) (t : list FileNode) :
  extensionLoop exts fn (filter isBlob t) = extensionLoop exts fn t.
Proof.
  induction exts as [|e exts IH]; [reflexivity|].
  cbn [extensionLoop]. rewrite find_filter, IH; [reflexivity|].
  intros n Hn. unfold hasFileName in Hn. now apply andb_true_iff in Hn.
Qed.

(** The stages on the file entries alone find what they find on the tree. *)
Lemma stages_filter (s : string) (t : list FileNode) :
  exact s (filter isBlob t) = exact s t /\
  fileOnlyMatch s (filter isBlob t) = fileOnlyMatch s t /\
  extensionMatch s (filter isBlob t) = extensionMatch s t /\
  suffixMatch s (filter isBlob t) = suffixMatch s t /\
  partial s (filter isBlob t) = partial s t.
Proof.
  unfold exact, fileOnlyMatch, extensionMatch, suffixMatch, partial.
  rewrite extensionLoop_filter.
  rewrite !find_filter; [repeat split | | | | ];
    intros n Hn;
    [unfold containsFileName in Hn | unfold hasSuffix in Hn
     | unfold hasFileName in Hn | unfold isExact in Hn];
    now apply andb_true_iff in Hn.
Qed.

(** X3.  Directory entries have no influence: the result on a tree is the
    result on its entries of kind file, and a tree of directories alone
    resolves to null. *)
Theorem directories_are_ignored (s : string) (t : list FileNode) :
  resolveActualPath s t = resolveActualPath s (filter isBlob t) /\
  (filter isBlob t = [] -> resolveActualPath s t = None).
Proof.
  destruct (stages_filter s t) as (H1 & H2 & H3 & H4 & H5).
  assert (Hempty : filter isBlob t = [] -> resolveActualPath s t = None).
  { intros He. unfold resolveActualPath. rewrite <- H1, <- H2, <- H3, <- H4, <- H5, He.
    destruct (guard s t); [reflexivity|].
    replace (extensionMatch s []) with (@None FileNode) by reflexivity.
    unfold exact, fileOnlyMatch, suffixMatch, partial. cbn [find].
    destruct (1 <? length (pathParts s)), (4 <=? String.length (fileNameOnly s));
      reflexivity. }
  split; [|exact Hempty].
  destruct (filter isBlob t) as [|b l] eqn:Ef.
  - rewrite (Hempty eq_refl). unfold resolveActualPath, guard. simpl.
    now rewrite orb_true_r.
  - unfold resolveActualPath at 2. rewrite H1, H2, H3, H4, H5.
    unfold resolveActualPath.
    assert (Hg : guard s t = guard s (b :: l)).
    { unfold guard. destruct t; [discriminate | reflexivity]. }
    now rewrite Hg.
Qed.

Lemma directories_are_ignored_witness :
  filter isBlob [dir "src"; dir "docs"] = [] /\
  resolveActualPath "docs" [dir "src"; dir "docs"] = None.
Proof.
  split; [reflexivity|].
  exact (proj2 (directories_are_ignored "docs" [dir "src"; dir "docs"]) eq_refl).
Defined.

(** *** Stage 2 *)

Lemma hasSuffix_spec (s : string) (n : FileNode) :
  hasSuffix s n = true <-> endsWithTail s n.
Proof.
  unfold hasSuffix, endsWithTail.
  rewrite andb_true_iff, isBlob_spec, endsWith_spec. tauto.
Qed.

Lemma arraySlice_last_two {A : Type} (init : list A) (a b : A) :
  arraySlice (init ++ [a; b])%list (-2) = [a; b].
Proof.
  unfold arraySlice. rewrite length_app. cbn [length Z.ltb Z.compare].
  replace (Z.to_nat (Z.max (Z.of_nat (length init + 2) + -2) 0)) with (length init) by lia.
  rewrite skipn_app, skipn_all, Nat.sub_diag. reflexivity.
Qed.

(** X4.  The stage-2 answer: with a non-empty suggestion that stage 1 does not
    find, the result is the path of the first entry of kind file whose
    lowered final segment is the lowered final segment of the suggestion,
    in whatever directory it lies. *)
Theorem file_name_match (s : string) (t : list FileNode) :
  s <> "" ->
  exact s t = None ->
  forall pre n post,
    t = (pre ++ n :: post)%list ->
    finalSegmentIs (toLowerCase (finalSegment s)) n ->
    (forall m, In m pre -> ~ finalSegmentIs (toLowerCase (finalSegment s)) m) ->
    resolveActualPath s t = Some (path n).
Proof.
  intros Hs H1 pre n post Ht Hn Hpre. unfold resolveActualPath.
  rewrite guard_false by (assumption || (rewrite Ht; apply app_cons_not_nil)).
  rewrite H1. unfold fileOnlyMatch, fileNameOnly, pathParts.
  fold (finalSegment s). rewrite Ht.
  now rewrite (find_first_spec _ _ pre n post (hasFileName_spec _) Hn Hpre).
Qed.

Lemma file_name_match_witness :
  exact "src/utils/Helpers.ts" [dir "lib"; file "lib/helpers.ts.bak"; file "lib/HELPERS.ts"]
  = None /\
  resolveActualPath "src/utils/Helpers.ts"
                    [dir "lib"; file "lib/helpers.ts.bak"; file "lib/HELPERS.ts"]
  = Some "lib/HELPERS.ts".
Proof.
  split; [reflexivity|].
  refine (file_name_match "src/utils/Helpers.ts"
            [dir "lib"; file "lib/helpers.ts.bak"; file "lib/HELPERS.ts"] _ _
            [dir "lib"; file "lib/helpers.ts.bak"] (file "lib/HELPERS.ts") [] _ _ _).
  - discriminate.
  - reflexivity.
  - reflexivity.
  - split; reflexivity.
  - intros m [<-|[<-|[]]] [Hc Hd]; [discriminate Hc | vm_compute in Hd; discriminate Hd].
Defined.

(** *** Stage 4 *)

Lemma last_app_nonempty {A : Type} (l1 l2 : list A) (d : A) :
  l2 <> [] -> last (l1 ++ l2)%list d = last l2 d.
Proof.
  intros H. induction l1 as [|a l1 IH]; [reflexivity|].
  cbn [app]. destruct (l1 ++ l2)%list eqn:E; [|exact IH].
  apply app_eq_nil in E. now destruct E.
Qed.

(** Splitting a text with a separator in it splits the two sides. *)
Lemma split_app_separator (x y : string) (sep : ascii) :
  split (x ++ String sep y) sep = (split x sep ++ split y sep)%list.
Proof.
  induction x as [|c x IH]; cbn [append split].
  - now rewrite Ascii.eqb_refl.
  - rewrite IH. destruct (Ascii.eqb c sep); [reflexivity|].
    pose proof (split_nonempty x sep) as Hne.
    destruct (split x sep); [contradiction | reflexivity].
Qed.

Lemma two_or_more {A : Type} (l : list A) :
  1 < length l -> exists init a b, l = (init ++ [a; b])%list.
Proof.
  intros H. destruct (exists_last (l := l)) as (l1 & b & ->).
  { intros ->. simpl in H. lia. }
  destruct (exists_last (l := l1)) as (init & a & ->).
  { intros ->. simpl in H. lia. }
  exists init, a, b. now rewrite <- app_assoc.
Qed.

(** An entry that stage 4 accepts is one that stage 2 accepts. *)
Lemma hasSuffix_hasFileName (s : string) (n : FileNode) :
  1 < length (pathParts s) ->
  hasSuffix s n = true -> hasFileName (fileNameOnly s) n = true.
Proof.
  intros Hlen Hn. apply hasSuffix_spec in Hn. destruct Hn as [Hb [before Hp]].
  apply hasFileName_spec. split; [exact Hb|].
  destruct (two_or_more _ Hlen) as (init & a & b & Hparts).
  unfold fileNameOnly, suffix in *. rewrite Hparts in *.
  rewrite arraySlice_last_two in Hp.
  change (join [a; b] "/") with (a ++ String "/" b) in Hp.
  unfold lastPart at 2. rewrite last_app_nonempty by discriminate.
  cbn [last].
  rewrite Hp, toLowerCase_app, <- append_assoc.
  cbn [toLowerCase]. change (toLowerCaseChar "/") with "/"%char.
  rewrite split_app_separator.
  unfold lastPart. rewrite last_app_nonempty by apply split_nonempty.
  rewrite split_toLowerCase.
  assert (Hb1 : split b "/" = [b]).
  { pose proof (split_join s "/") as Hj. pose proof (split_no_separator s "/") as Hall.
    unfold pathParts in Hparts. rewrite Hparts in Hall.
    apply Forall_app in Hall. destruct Hall as [_ Hall].
    inversion Hall as [|x l _ Hl]; subst. inversion Hl as [|y l' Hb' _]; subst.
    clear - Hb'. induction b as [|c r IH]; [reflexivity|].
    cbn [indexOf] in Hb'. cbn [split].
    destruct (Ascii.eqb c "/"); [discriminate|].
    destruct (indexOf r "/" =? -1)%Z eqn:E;
      [|pose proof (indexOf_range r "/"); lia].
    apply Z.eqb_eq in E. now rewrite (IH E). }
  now rewrite Hb1.
Qed.

(** X5.  Stage 4 never answers.  A suggestion without "/" skips it; for one
    with "/", its suffix is the lowered last two segments joined by "/",
    and an entry whose path ends with it has the suggestion's file name as
    its final segment, so that stage 2 has found an entry before stage 4 is
    tried. *)
Theorem deep_suffix_never_answers (s : string) (t : list FileNode) :
  (length (split s "/") <= 1 -> suffixMatch s t = None) /\
  (forall init a b, split s "/" = (init ++ [a; b])%list ->
                    suffix s = toLowerCase a ++ "/" ++ toLowerCase b) /\
  (fileOnlyMatch s t = None -> suffixMatch s t = None).
Proof.
  split; [|split].
  - intros Hlen. unfold suffixMatch, pathParts.
    apply Nat.ltb_ge in Hlen. now rewrite Hlen.
  - intros init a b Hsplit. unfold suffix, pathParts.
    rewrite Hsplit, arraySlice_last_two.
    change (join [a; b] "/") with (a ++ "/" ++ b).
    now rewrite !toLowerCase_app.
  - intros H2. unfold suffixMatch.
    destruct (1 <? length (pathParts s)) eqn:Hlen; [|reflexivity].
    apply Nat.ltb_lt in Hlen.
    destruct (find (hasSuffix s) t) as [n|] eqn:E; [|reflexivity].
    apply find_some in E. destruct E as [Hin Hn].
    apply (hasSuffix_hasFileName s n Hlen) in Hn.
    unfold fileOnlyMatch in H2.
    pose proof (find_none _ _ H2 n Hin) as Hc. congruence.
Qed.

Lemma deep_suffix_never_answers_witness :
  fileOnlyMatch "docs/guide.md" [file "pkg/sub/docs/guide.markdown"] = None /\
  suffixMatch "docs/guide.md" [file "pkg/sub/docs/guide.markdown"] = None.
Proof.
  split; [reflexivity|].
  exact (proj2 (proj2 (deep_suffix_never_answers "docs/guide.md"
                         [file "pkg/sub/docs/guide.markdown"])) eq_refl).
Defined.

(** The nested path of a suggestion given with its last two segments is
    found by its file name, at stage 2. *)
Example deep_suffix_found_at_stage_2 :
  fileOnlyMatch "docs/guide.md" [file "pkg/sub/docs/guide.md"]
  = Some (file "pkg/sub/docs/guide.md") /\
  resolveActualPath "docs/guide.md" [file "pkg/sub/docs/guide.md"]
  = Some "pkg/sub/docs/guide.md".
Proof. split; reflexivity. Qed.

(** *** What a result has to do with the suggestion *)

Lemma isWhiteSpace_toLowerCaseChar (c : ascii) :
  isWhiteSpace (toLowerCaseChar c) = isWhiteSpace c.
Proof. destruct c as [[] [] [] [] [] [] [] []]; reflexivity. Qed.

Lemma trimStart_toLowerCase (s : string) :
  trimStart (toLowerCase s) = toLowerCase (trimStart s).
Proof.
  induction s as [|c r IH]; [reflexivity|].
  cbn [toLowerCase trimStart]. rewrite isWhiteSpace_toLowerCaseChar.
  destruct (isWhiteSpace c); [exact IH | reflexivity].
Qed.

Lemma trimEnd_toLowerCase (s : string) :
  trimEnd (toLowerCase s) = toLowerCase (trimEnd s).
Proof.
  induction s as [|c r IH]; [reflexivity|].
  cbn [toLowerCase trimEnd]. rewrite IH, isWhiteSpace_toLowerCaseChar.
  destruct (trimEnd r); cbn [toLowerCase]; [|reflexivity].
  now destruct (isWhiteSpace c).
Qed.

Lemma trim_toLowerCase (s : string) :
  trim (toLowerCase s) = toLowerCase (trim s).
Proof. unfold trim. now rewrite trimStart_toLowerCase, trimEnd_toLowerCase. Qed.

Lemma substringOf_tail (p e s : string) :
  lastPart (split s "/") = p ++ e -> substringOf p s.
Proof.
  intros H. destruct (split_last s "/") as [_ [Hs|[before Hs]]]; rewrite H in Hs.
  - exists "", e. exact Hs.
  - exists (before ++ "/"), e. rewrite Hs, append_assoc. reflexivity.
Qed.

Lemma substringOf_finalSegment (s : string) :
  substringOf (toLowerCase (finalSegment s)) (toLowerCase s).
Proof.
  unfold finalSegment.
  rewrite <- lastPart_map_toLowerCase, <- split_toLowerCase.
  apply (substringOf_tail _ ""). now rewrite append_empty_r.
Qed.

Lemma extensionLoop_some (exts : list string) (fn : string) (t : list FileNode)
      (n : FileNode) :
  extensionLoop exts fn t = Some n ->
  exists e, In e exts /\ find (hasFileName (target fn e)) t = Some n.
Proof.
  induction exts as [|e exts IH]; cbn [extensionLoop]; [discriminate|].
  destruct (find (hasFileName (target fn e)) t) as [m|] eqn:E.
  - intros [= <-]. exists e. split; [now left | exact E].
  - intros H. destruct (IH H) as (e' & He' & Hf). exists e'. split; [now right | exact Hf].
Qed.

Lemma target_shape (s e : string) :
  exists e', target (fileNameOnly s) e = toLowerCase (finalSegment s) ++ e'.
Proof.
  unfold target, fileNameOnly, pathParts. fold (finalSegment s).
  destruct (includes (toLowerCase (finalSegment s)) ".").
  - exists "". now rewrite toLowerCase_idem, append_empty_r.
  - exists (toLowerCase e). now rewrite toLowerCase_app, toLowerCase_idem.
Qed.

(** The entry behind a result, and how its path relates to the suggestion. *)
Lemma resolveActualPath_some (s : string) (t : list FileNode) (p : string) :
  resolveActualPath s t = Some p ->
  exists n, In n t /\ type n = blob /\ path n = p /\
            (toLowerCase p = trim (toLowerCase s) \/
             substringOf (toLowerCase (finalSegment s)) (toLowerCase p)).
Proof.
  unfold resolveActualPath. destruct (guard s t); [discriminate|].
  destruct (exact s t) as [n|] eqn:E1.
  { intros [= <-]. exists n. destruct (stages_blob s t n) as [? ?]; auto.
    repeat split; auto. left.
    apply find_some in E1. destruct E1 as [_ E1].
    apply isExact_spec in E1. exact (proj2 E1). }
  destruct (fileOnlyMatch s t) as [n|] eqn:E2.
  { intros [= <-]. exists n. destruct (stages_blob s t n) as [? ?]; auto.
    repeat split; auto. right.
    apply find_some in E2. destruct E2 as [_ E2].
    apply hasFileName_spec in E2. destruct E2 as [_ E2].
    apply (substringOf_tail _ ""). now rewrite append_empty_r. }
  destruct (extensionMatch s t) as [n|] eqn:E3.
  { intros [= <-]. exists n. destruct (stages_blob s t n) as [? ?]; auto.
    repeat split; auto. right.
    apply extensionLoop_some in E3. destruct E3 as (e & _ & E3).
    apply find_some in E3. destruct E3 as [_ E3].
    apply hasFileName_spec in E3. destruct E3 as [_ E3].
    destruct (target_shape s e) as [e' He']. rewrite He' in E3.
    now apply (substringOf_tail _ e'). }
  destruct (suffixMatch s t) as [n|] eqn:E4.
  { exfalso. unfold suffixMatch in E4.
    destruct (1 <? length (pathParts s)) eqn:Hlen; [|discriminate].
    apply Nat.ltb_lt in Hlen. apply find_some in E4. destruct E4 as [Hin Hn].
    apply (hasSuffix_hasFileName s n Hlen) in Hn.
    unfold fileOnlyMatch in E2. pose proof (find_none _ _ E2 n Hin). congruence. }
  destruct (partial s t) as [n|] eqn:E5; [|discriminate].
  intros [= <-]. exists n. destruct (stages_blob s t n) as [? ?]; auto 6.
  repeat split; auto. right.
  unfold partial in E5. destruct (4 <=? String.length (fileNameOnly s)); [|discriminate].
  apply find_some in E5. destruct E5 as [_ E5].
  apply containsFileName_spec in E5. now destruct E5.
Qed.

(** X6.  A result is never unrelated to the suggestion: its lowered path is the
    lowered and trimmed suggestion, or it contains the lowered final
    segment of the suggestion. *)
Theorem result_contains_file_name (s : string) (t : list FileNode) (p : string) :
  resolveActualPath s t = Some p ->
  toLowerCase p = trim (toLowerCase s) \/
  substringOf (toLowerCase (finalSegment s)) (toLowerCase p).
Proof.
  intros H. destruct (resolveActualPath_some s t p H) as (n & _ & _ & _ & Hr).
  exact Hr.
Qed.

Lemma result_contains_file_name_witness :
  resolveActualPath "app/Config" [file "server/config.json"; file "Config.yaml"]
  = Some "server/config.json" /\
  (toLowerCase "server/config.json" = trim (toLowerCase "app/Config") \/
   substringOf (toLowerCase (finalSegment "app/Config"))
               (toLowerCase "server/config.json")).
Proof.
  split; [reflexivity|].
  apply (result_contains_file_name "app/Config"
           [file "server/config.json"; file "Config.yaml"]).
  reflexivity.
Defined.

(** X7.  When the resolver answers null.  For a suggestion without white space
    around it, the result is null whenever no entry of kind file contains
    the lowered file name in its lowered path; for a file name of at least
    4 characters the result is null only then. *)
Theorem null_when_nothing_contains (s : string) (t : list FileNode) :
  (unpadded s ->
   (forall n, In n t -> ~ containsFile s n) -> resolveActualPath s t = None) /\
  (4 <= String.length (finalSegment s) ->
   resolveActualPath s t = None -> forall n, In n t -> ~ containsFile s n).
Proof.
  split.
  - intros Hpad Hno. destruct (resolveActualPath s t) as [p|] eqn:E; [|reflexivity].
    exfalso. destruct (resolveActualPath_some s t p E) as (n & Hin & Hb & Hp & Hr).
    apply (Hno n Hin). split; [exact Hb|]. rewrite Hp.
    destruct Hr as [Hr|Hr]; [|exact Hr].
    rewrite Hr, trim_toLowerCase, Hpad. apply substringOf_finalSegment.
  - intros Hlen Hnull n Hin.
    assert (Hs : s <> "") by (apply finalSegment_nonempty; lia).
    assert (Hg : guard s t = false).
    { apply guard_false; [exact Hs | intros ->; contradiction]. }
    unfold resolveActualPath in Hnull. rewrite Hg in Hnull.
    destruct (exact s t); [discriminate|].
    destruct (fileOnlyMatch s t); [discriminate|].
    destruct (extensionMatch s t); [discriminate|].
    destruct (suffixMatch s t); [discriminate|].
    destruct (partial s t) eqn:E5; [discriminate|].
    unfold partial in E5.
    assert (Hl : String.length (fileNameOnly s) = String.length (finalSegment s)).
    { unfold fileNameOnly, pathParts. apply toLowerCase_length. }
    rewrite Hl in E5. apply Nat.leb_le in Hlen. rewrite Hlen in E5.
    intros Hc. apply containsFileName_spec in Hc.
    pose proof (find_none _ _ E5 n Hin). congruence.
Qed.

Lemma null_when_nothing_contains_witness :
  resolveActualPath "totally_missing_file.xyz" [file "src/main.py"; dir "docs"] = None /\
  ~ containsFile "totally_missing_file.xyz" (file "src/main.py").
Proof.
  split; [reflexivity|].
  apply (proj2 (null_when_nothing_contains "totally_missing_file.xyz"
                  [file "src/main.py"; dir "docs"])).
  - simpl. lia.
  - reflexivity.
  - now left.
Defined.

(** White space after the file name defeats every stage but the first: the
    entry is found when the whole suggestion is its path, and otherwise
    not even by its file name. *)
Example padding_is_trimmed_at_stage_1_only :
  resolveActualPath "README.md " [file "README.md"] = Some "README.md" /\
  resolveActualPath "docs/README.md " [file "README.md"] = None.
Proof. split; reflexivity. Qed.

(** ** Properties of parseGithubUrl *)

Import GitHubUrl.

Lemma substring_all (s : string) : substring 0 (String.length s) s = s.
Proof. induction s as [|c r IH]; simpl; congruence. Qed.

Lemma prefix_host (s : string) :
  prefix host s = true ->
  s = host ++ substring 11 (String.length s - 11) s.
Proof.
  intros H. apply prefix_app_iff in H. destruct H as [rest ->].
  cbn. now rewrite Nat.sub_0_r, substring_all.
Qed.

Lemma spanNotSlash_spec (s : string) :
  s = fst (spanNotSlash s) ++ snd (spanNotSlash s) /\
  slashFree (fst (spanNotSlash s)) /\
  (snd (spanNotSlash s) = "" \/ exists r, snd (spanNotSlash s) = String "/" r).
Proof.
  unfold slashFree. induction s as [|c r IH]; cbn [spanNotSlash].
  - split; [reflexivity|]. split; [reflexivity | now left].
  - destruct (Ascii.eqb c "/") eqn:Ec.
    + apply Ascii.eqb_eq in Ec. subst c. cbn [fst snd append indexOf].
      split; [reflexivity|]. split; [reflexivity|]. right. eauto.
    + destruct (spanNotSlash r) as [run rest]. cbn [fst snd] in *.
      destruct IH as (Hs & Hfree & Hrest).
      split; [cbn; congruence|]. split; [|exact Hrest].
      cbn [indexOf]. now rewrite Ec, Hfree.
Qed.

Lemma spanNotSlash_app (a b : string) :
  slashFree a -> (b = "" \/ exists r, b = String "/" r) ->
  spanNotSlash (a ++ b) = (a, b).
Proof.
  unfold slashFree. intros Ha Hb. induction a as [|c a IH]; cbn [append].
  - destruct Hb as [->|[r ->]]; reflexivity.
  - cbn [indexOf] in Ha. cbn [spanNotSlash].
    destruct (Ascii.eqb c "/"); [discriminate|].
    destruct (indexOf a "/" =? -1)%Z eqn:E;
      [|pose proof (indexOf_range a "/"); lia].
    apply Z.eqb_eq in E. now rewrite (IH E).
Qed.

(** What a match at the start of a text says about the text. *)
Lemma matchHere_some (s g1 g2 : string) :
  matchHere s = Some (g1, g2) ->
  g1 <> "" /\ g2 <> "" /\ slashFree g1 /\ slashFree g2 /\
  exists after, s = host ++ g1 ++ "/" ++ g2 ++ after.
Proof.
  unfold matchHere. destruct (prefix host s) eqn:Hp; [|discriminate].
  apply prefix_host in Hp.
  destruct (spanNotSlash_spec (substring 11 (String.length s - 11) s))
    as (Hs & Hfree & Hrest).
  destruct (spanNotSlash (substring 11 (String.length s - 11) s)) as [run rest].
  cbn [fst snd] in *.
  destruct run as [|c run]; [discriminate|].
  destruct Hrest as [->|[r ->]]; [discriminate|].
  destruct (spanNotSlash_spec r) as (Hs2 & Hfree2 & _).
  destruct (spanNotSlash r) as [run2 rest2]. cbn [fst snd] in *.
  destruct run2 as [|c2 run2]; [discriminate|].
  intros [= <- <-]. repeat split; try discriminate; try assumption.
  exists rest2. rewrite Hp at 1. rewrite Hs, Hs2.
  reflexivity.
Qed.

Lemma matchUrl_some (url g1 g2 : string) :
  matchUrl url = Some (g1, g2) ->
  g1 <> "" /\ g2 <> "" /\ slashFree g1 /\ slashFree g2 /\
  substringOf (host ++ g1 ++ "/" ++ g2) url.
Proof.
  induction url as [|c r IH]; cbn [matchUrl].
  - destruct (matchHere "") as [[a b]|] eqn:E; [|discriminate].
    discriminate E.
  - destruct (matchHere (String c r)) as [[a b]|] eqn:E.
    + intros [= -> ->]. destruct (matchHere_some _ _ _ E) as (H1 & H2 & H3 & H4 & after & H5).
      repeat split; try assumption. exists "", after.
      rewrite H5. now rewrite !append_assoc.
    + intros H. destruct (IH H) as (H1 & H2 & H3 & H4 & before & after & H5).
      repeat split; try assumption. exists (String c before), after.
      cbn. now rewrite H5.
Qed.

Lemma removeGitSuffix_shape (g : string) :
  removeGitSuffix g = g \/ g = removeGitSuffix g ++ ".git".
Proof.
  induction g as [|c r IH]; [now left|].
  cbn [removeGitSuffix]. destruct (String.eqb (String c r) ".git") eqn:E.
  - apply String.eqb_eq in E. rewrite E. now right.
  - destruct IH as [IH|IH]; [left | right]; cbn; congruence.
Qed.

Lemma indexOf_app_absent (a b : string) (c : ascii) :
  indexOf (a ++ b) c = (-1)%Z <-> indexOf a c = (-1)%Z /\ indexOf b c = (-1)%Z.
Proof.
  induction a as [|x a IH]; cbn [append indexOf]; [tauto|].
  destruct (Ascii.eqb x c); [split; [discriminate | intros [? _]; discriminate]|].
  pose proof (indexOf_range (a ++ b) c). pose proof (indexOf_range a c).
  destruct (indexOf (a ++ b) c =? -1)%Z eqn:E1, (indexOf a c =? -1)%Z eqn:E2;
    rewrite ?Z.eqb_eq, ?Z.eqb_neq in *; split; intros; try lia; tauto.
Qed.

Lemma removeGitSuffix_slashFree (g : string) :
  slashFree g -> slashFree (removeGitSuffix g).
Proof.
  unfold slashFree. intros H. destruct (removeGitSuffix_shape g) as [E|E].
  - now rewrite E.
  - rewrite E in H. now apply indexOf_app_absent in H.
Qed.

(** X8.  A text without the host has no match: the result is null. *)
Theorem no_host_no_parse (url : string) :
  includes url host = false -> parseGithubUrl url = None.
Proof.
  intros H. unfold parseGithubUrl.
  assert (E : matchUrl url = None).
  { induction url as [|c r IH].
    - reflexivity.
    - cbn [includes] in H. apply orb_false_iff in H. destruct H as [Hp Hr].
      cbn [matchUrl]. unfold matchHere at 1. rewrite Hp. now apply IH. }
  now rewrite E.
Qed.

(** The placeholder of the input field is not a URL the parser accepts. *)
Lemma no_host_no_parse_witness :
  includes "facebook/react" host = false /\ parseGithubUrl "facebook/react" = None.
Proof.
  split; [reflexivity|]. apply no_host_no_parse. reflexivity.
Defined.

(** X9.  What a parse result says about the URL: the owner is not empty,
    neither name has a "/", and the URL contains the host followed by
    owner, "/" and repo. *)
Theorem parse_result_in_url (url : string) (r : OwnerRepo) :
  parseGithubUrl url = Some r ->
  owner r <> "" /\ slashFree (owner r) /\ slashFree (repo r) /\
  substringOf (host ++ owner r ++ "/" ++ repo r) url.
Proof.
  unfold parseGithubUrl. destruct (matchUrl url) as [[g1 g2]|] eqn:E; [|discriminate].
  intros [= <-]. cbn [owner repo].
  destruct (matchUrl_some _ _ _ E) as (H1 & _ & H3 & H4 & before & after & H5).
  repeat split; try assumption.
  - now apply removeGitSuffix_slashFree.
  - destruct (removeGitSuffix_shape g2) as [Eg|Eg].
    + rewrite Eg. now exists before, after.
    + exists before, (".git" ++ after). rewrite H5. rewrite Eg at 1.
      now rewrite !append_assoc.
Qed.

Lemma parse_result_in_url_witness :
  parseGithubUrl "git clone https://github.com/pallets/flask.git"
  = Some (mkOwnerRepo "pallets" "flask") /\
  substringOf (host ++ "pallets" ++ "/" ++ "flask")
              "git clone https://github.com/pallets/flask.git".
Proof.
  split; [reflexivity|].
  apply (parse_result_in_url "git clone https://github.com/pallets/flask.git"
                             (mkOwnerRepo "pallets" "flask")).
  reflexivity.
Defined.

Lemma matchHere_canonical (o r tail : string) :
  o <> "" -> slashFree o -> r <> "" -> slashFree r ->
  (tail = "" \/ exists rest, tail = String "/" rest) ->
  matchHere (host ++ o ++ "/" ++ r ++ tail) = Some (o, r).
Proof.
  intros Ho Hfo Hr Hfr Htail. unfold matchHere.
  assert (Hp : prefix host (host ++ o ++ "/" ++ r ++ tail) = true)
    by (apply prefix_app_iff; eauto).
  rewrite Hp.
  assert (Hsub : substring 11 (String.length (host ++ o ++ "/" ++ r ++ tail) - 11)
                           (host ++ o ++ "/" ++ r ++ tail)
                 = o ++ String "/" (r ++ tail)).
  { cbn. now rewrite Nat.sub_0_r, substring_all. }
  rewrite Hsub, (spanNotSlash_app o) by eauto.
  destruct o as [|c o]; [contradiction|].
  rewrite (spanNotSlash_app r tail Hfr Htail).
  destruct r as [|c2 r]; [contradiction | reflexivity].
Qed.

Lemma matchUrl_here (url : string) (groups : string * string) :
  matchHere url = Some groups -> matchUrl url = Some groups.
Proof. intros H. destruct url; cbn [matchUrl]; now rewrite H. Qed.

Lemma matchUrl_canonical (pre o r tail : string) :
  indexOf pre "g" = (-1)%Z ->
  o <> "" -> slashFree o -> r <> "" -> slashFree r ->
  (tail = "" \/ exists rest, tail = String "/" rest) ->
  matchUrl (pre ++ host ++ o ++ "/" ++ r ++ tail) = Some (o, r).
Proof.
  intros Hpre Ho Hfo Hr Hfr Htail. induction pre as [|c pre IH].
  - cbn [append]. apply matchUrl_here. now apply matchHere_canonical.
  - cbn [indexOf] in Hpre. destruct (Ascii.eqb c "g") eqn:Ec; [discriminate|].
    destruct (indexOf pre "g" =? -1)%Z eqn:E;
      [|pose proof (indexOf_range pre "g"); lia].
    apply Z.eqb_eq in E.
    assert (Hm : matchHere (String c (pre ++ host ++ o ++ "/" ++ r ++ tail)) = None).
    { unfold matchHere. cbn [host prefix].
      destruct (ascii_dec "g" c) as [<-|Hne]; [discriminate Ec | reflexivity]. }
    change (matchUrl (String c pre ++ host ++ o ++ "/" ++ r ++ tail))
      with (match matchHere (String c (pre ++ host ++ o ++ "/" ++ r ++ tail)) with
            | Some groups => Some groups
            | None => matchUrl (pre ++ host ++ o ++ "/" ++ r ++ tail)
            end).
    rewrite Hm. now apply IH.
Qed.

Lemma length_append (a b : string) :
  String.length (a ++ b) = String.length a + String.length b.
Proof. induction a as [|c a IH]; simpl; congruence. Qed.

Lemma removeGitSuffix_added (r : string) : removeGitSuffix (r ++ ".git") = r.
Proof.
  induction r as [|c r IH]; [reflexivity|].
  cbn [append removeGitSuffix]. rewrite IH.
  assert (E : String.eqb (String c (r ++ ".git")) ".git" = false).
  { apply String.eqb_neq. intros H.
    apply (f_equal String.length) in H. cbn in H.
    rewrite length_append in H. cbn in H. lia. }
  now rewrite E.
Qed.

(** X10.  A repository URL parses to its two names.  After any text without
    "g" (a scheme, "www."), the host, an owner and a repository name that
    are not empty and have no "/", and then nothing or a "/" and anything:
    the result is the owner and the repository name without a final ".git". *)
Theorem canonical_url_parse (pre o r tail : string) :
  indexOf pre "g" = (-1)%Z ->
  o <> "" -> slashFree o -> r <> "" -> slashFree r ->
  (tail = "" \/ exists rest, tail = String "/" rest) ->
  parseGithubUrl (pre ++ host ++ o ++ "/" ++ r ++ tail)
  = Some (mkOwnerRepo o (removeGitSuffix r)).
Proof.
  intros. unfold parseGithubUrl. now rewrite matchUrl_canonical.
Qed.

(** The URL the featured cards hand to the parser, with a path after it. *)
Lemma canonical_url_parse_witness :
  parseGithubUrl "https://github.com/facebook/react/tree/main/packages"
  = Some (mkOwnerRepo "facebook" "react").
Proof.
  apply (canonical_url_parse "https://" "facebook" "react" "/tree/main/packages").
  - reflexivity.
  - discriminate.
  - reflexivity.
  - discriminate.
  - reflexivity.
  - right. eauto.
Defined.

(** X11.  A clone URL parses to the bare name: the ".git" that ends the URL is
    removed, once. *)
Theorem clone_url_parse (pre o r : string) :
  indexOf pre "g" = (-1)%Z ->
  o <> "" -> slashFree o -> slashFree r ->
  parseGithubUrl (pre ++ host ++ o ++ "/" ++ r ++ ".git") = Some (mkOwnerRepo o r).
Proof.
  intros Hpre Ho Hfo Hfr. unfold parseGithubUrl.
  pose proof (matchUrl_canonical pre o (r ++ ".git") "" Hpre Ho Hfo) as H.
  rewrite append_empty_r in H. rewrite H.
  - now rewrite removeGitSuffix_added.
  - now destruct r.
  - apply indexOf_app_absent. split; [exact Hfr | reflexivity].
  - now left.
Qed.

Lemma clone_url_parse_witness :
  parseGithubUrl "https://github.com/expressjs/express.git"
  = Some (mkOwnerRepo "expressjs" "express") /\
  parseGithubUrl "https://github.com/expressjs/express.git.git"
  = Some (mkOwnerRepo "expressjs" "express.git").
Proof.
  split.
  - apply (clone_url_parse "https://" "expressjs" "express");
      reflexivity || discriminate.
  - apply (clone_url_parse "https://" "expressjs" "express.git");
      reflexivity || discriminate.
Defined.

(** A query or a fragment after the name is taken into the name. *)
Example query_stays_in_repo :
  parseGithubUrl "https://github.com/a/b?tab=readme#top"
  = Some (mkOwnerRepo "a" "b?tab=readme#top").
Proof. reflexivity. Qed.

(** ** Properties of the analysis steps *)

Import App.








Lemma replaceFirstSlash_at (a b : string) :
  slashFree a -> replaceFirstSlash (a ++ String "/" b) = a ++ String "_" b.
Proof.
  unfold slashFree. induction a as [|c a IH]; intros Ha; [reflexivity|].
  cbn [indexOf] in Ha. cbn [append replaceFirstSlash].
  destruct (Ascii.eqb c "/"); [discriminate|].
  destruct (indexOf a "/" =? -1)%Z eqn:E;
    [|pose proof (indexOf_range a "/"); lia].
  apply Z.eqb_eq in E. now rewrite (IH E).
Qed.

Lemma replaceFirstSlash_none (a : string) :
  slashFree a -> replaceFirstSlash a = a.
Proof.
  unfold slashFree. induction a as [|c a IH]; intros Ha; [reflexivity|].
  cbn [indexOf] in Ha. cbn [replaceFirstSlash].
  destruct (Ascii.eqb c "/"); [discriminate|].
  destruct (indexOf a "/" =? -1)%Z eqn:E;
    [|pose proof (indexOf_range a "/"); lia].
  apply Z.eqb_eq in E. now rewrite (IH E).
Qed.

(** X13.  The name of the exported file.  The first "/" of the repository name
    becomes "_" and no other: for an "owner/repo" name the file name has no
    "/" when the repo part has none, and a name without "/" is kept. *)
Theorem download_name (a b : string) :
  slashFree a ->
  downloadName (a ++ "/" ++ b) = a ++ "_" ++ b ++ "_tutorial.json" /\
  downloadName a = a ++ "_tutorial.json" /\
  (slashFree b -> slashFree (downloadName (a ++ "/" ++ b))).
Proof.
  intros Ha. unfold downloadName. change ("/" ++ b) with (String "/" b).
  rewrite (replaceFirstSlash_at a b Ha), (replaceFirstSlash_none a Ha).
  split; [|split].
  - now rewrite !append_assoc.
  - reflexivity.
  - intros Hb. unfold slashFree in *.
    rewrite !indexOf_app_absent. repeat split; auto.
    cbn. now rewrite Hb.
Qed.

Lemma download_name_witness :
  downloadName "facebook/react" = "facebook_react_tutorial.json" /\
  downloadName "a/b/c" = "a_b/c_tutorial.json".
Proof.
  split.
  - exact (proj1 (download_name "facebook" "react" eq_refl)).
  - exact (proj1 (download_name "a" "b/c" eq_refl)).
Defined.

(** X14.  When the analysis has a README.  The README path is null exactly when
    no entry of kind file has "readme.md" in its lowered path: a
    "docs/ReadMe.md" or a "README.md.bak" is taken, a "README.rst" or a bare
    "README" is not. *)
Theorem readme_found (tree : list FileNode) :
  readmePath tree = None <->
  forall n, In n tree -> type n = blob ->
            ~ substringOf "readme.md" (toLowerCase (path n)).
Proof.
  unfold readmePath. split.
  - intros H n Hin Hb Hc.
    assert (Hlen : 4 <= String.length (finalSegment "README.md")) by (simpl; lia).
    assert (Hg : guard "README.md" tree = false).
    { apply guard_false; [discriminate | intros ->; contradiction]. }
    unfold resolveActualPath in H. rewrite Hg in H.
    destruct (exact "README.md" tree); [discriminate|].
    destruct (fileOnlyMatch "README.md" tree); [discriminate|].
    destruct (extensionMatch "README.md" tree); [discriminate|].
    destruct (suffixMatch "README.md" tree); [discriminate|].
    destruct (partial "README.md" tree) eqn:E5; [discriminate|].
    unfold partial in E5. cbn [fileNameOnly] in E5.
    change (4 <=? String.length (fileNameOnly "README.md")) with true in E5.
    pose proof (find_none _ _ E5 n Hin) as Hf.
    assert (Ht : containsFileName "README.md" n = true).
    { apply containsFileName_spec. split; [exact Hb | exact Hc]. }
    congruence.
  - intros Hno. destruct (resolveActualPath "README.md" tree) as [p|] eqn:E; [|reflexivity].
    exfalso. destruct (resolveActualPath_some _ _ _ E) as (n & Hin & Hb & Hp & Hr).
    apply (Hno n Hin Hb). rewrite Hp.
    destruct Hr as [Hr|Hr]; [|exact Hr].
    rewrite Hr. now exists "", "".
Qed.

Example readme_found_examples :
  readmePath [file "docs/ReadMe.md"] = Some "docs/ReadMe.md" /\
  readmePath [file "README.md.bak"] = Some "README.md.bak" /\
  readmePath [file "README.rst"; file "README"; dir "README.md"] = None.
Proof. repeat split; reflexivity. Qed.

(** ** Properties of decodeBase64 *)

Import Platform Base64.

Ltac Zify.zify_post_hook ::= Z.to_euclidean_division_equations.

Section Base64Facts.
Local Open Scope N_scope.

(** Induction over a list three elements at a time. *)
Lemma triples_ind {A : Type} (P : list A -> Prop) :
  P [] -> (forall a, P [a]) -> (forall a b, P [a; b]) ->
  (forall a b c rest, P rest -> P (a :: b :: c :: rest)) ->
  forall l, P l.
Proof.
  intros H0 H1 H2 H3.
  assert (H : forall l, P l /\ (forall a, P (a :: l)) /\ (forall a b, P (a :: b :: l))).
  { induction l as [|x l (IH0 & IH1 & IH2)]; [now repeat split|].
    repeat split; auto. }
  intros l. apply H.
Qed.

Lemma base64_parts (bytes : list N) :
  base64 bytes = (map alphabet (sextetsOf bytes) ++ padding bytes)%list.
Proof.
  induction bytes as [| a | a b | a b c rest IH] using triples_ind;
    try reflexivity.
  cbn [base64 sextetsOf padding map app]. now rewrite IH.
Qed.

Lemma sextetsOf_range (bytes : list N) :
  Forall (fun b => b < 256) bytes -> Forall (fun v => v < 64) (sextetsOf bytes).
Proof.
  induction bytes as [| a | a b | a b c rest IH] using triples_ind; intros H.
  - constructor.
  - inversion H; subst. cbn [sextetsOf]. repeat constructor; lia.
  - inversion H as [|? ? Ha H']; subst. inversion H'; subst.
    cbn [sextetsOf]. repeat constructor; lia.
  - inversion H as [|? ? Ha H']; subst. inversion H' as [|? ? Hb H'']; subst.
    inversion H'' as [|? ? Hc Hr]; subst.
    cbn [sextetsOf]. repeat (constructor; [lia|]). now apply IH.
Qed.

Lemma decodeSextets_sextetsOf (bytes : list N) :
  Forall (fun b => b < 256) bytes -> decodeSextets (sextetsOf bytes) = bytes.
Proof.
  induction bytes as [| a | a b | a b c rest IH] using triples_ind; intros H.
  - reflexivity.
  - inversion H; subst. cbn [sextetsOf decodeSextets]. f_equal. lia.
  - inversion H as [|? ? Ha H']; subst. inversion H'; subst.
    cbn [sextetsOf decodeSextets]. f_equal; [lia|]. f_equal. lia.
  - inversion H as [|? ? Ha H']; subst. inversion H' as [|? ? Hb H'']; subst.
    inversion H'' as [|? ? Hc Hr]; subst.
    cbn [sextetsOf decodeSextets]. rewrite (IH Hr).
    f_equal; [lia|]. f_equal; [lia|]. f_equal. lia.
Qed.

Lemma sextet_alphabet (v : N) : v < 64 -> sextet (alphabet v) = Some v.
Proof.
  intros H. unfold alphabet.
  destruct (N.ltb_spec v 26); [|destruct (N.ltb_spec v 52);
    [|destruct (N.ltb_spec v 62); [|destruct (N.eqb_spec v 62)]]];
    unfold sextet, between;
    repeat match goal with
    | |- context [?a <=? ?b] =>
        destruct (N.leb_spec a b); try lia; cbn [andb]
    | |- context [?a =? ?b] =>
        destruct (N.eqb_spec a b); try lia
    end; f_equal; lia.
Qed.

Lemma alphabet_plain (v : N) :
  v < 64 -> isAsciiWhitespace (alphabet v) = false /\ (alphabet v =? EQUALS) = false.
Proof.
  intros H. unfold alphabet, isAsciiWhitespace, EQUALS.
  destruct (N.ltb_spec v 26); [|destruct (N.ltb_spec v 52);
    [|destruct (N.ltb_spec v 62); [|destruct (N.eqb_spec v 62)]]];
    repeat match goal with
    | |- context [?a =? ?b] =>
        destruct (N.eqb_spec a b); try lia
    end; split; reflexivity.
Qed.

Lemma filter_all {A : Type} (p : A -> bool) (l : list A) :
  Forall (fun x => p x = true) l -> filter p l = l.
Proof.
  induction 1 as [|x l Hx _ IH]; [reflexivity|].
  cbn [filter]. now rewrite Hx, IH.
Qed.

(** The lengths of the two parts of a base64 text. *)
Lemma base64_shape (bytes : list N) :
  exists k : nat,
    (length (sextetsOf bytes) = (4 * k)%nat /\ padding bytes = []) \/
    (length (sextetsOf bytes) = (4 * k + 3)%nat /\ padding bytes = [EQUALS]) \/
    (length (sextetsOf bytes) = (4 * k + 2)%nat /\ padding bytes = [EQUALS; EQUALS]).
Proof.
  induction bytes as [| a | a b | a b c rest IH] using triples_ind.
  - exists 0%nat. now left.
  - exists 0%nat. right. now right.
  - exists 0%nat. right. now left.
  - destruct IH as [k IH]. exists (S k). cbn [sextetsOf padding length].
    destruct IH as [[H1 H2]|[[H1 H2]|[H1 H2]]]; rewrite H1, H2;
      [left | right; left | right; right]; split; (lia || reflexivity).
Qed.

Lemma dropPadding_body (body pad : CodeUnits) :
  Forall (fun u => (u =? EQUALS) = false) body ->
  pad = [] \/ (pad = [EQUALS] /\ body <> []) \/ pad = [EQUALS; EQUALS] ->
  N.of_nat (length (body ++ pad)%list) mod 4 = 0 ->
  dropPadding (body ++ pad)%list = body.
Proof.
  intros Hbody Hpad Hlen. unfold dropPadding.
  rewrite Hlen, N.eqb_refl, rev_app_distr.
  assert (Hrev : Forall (fun u => (u =? EQUALS) = false) (rev body)).
  { apply Forall_forall. intros u Hu. apply in_rev in Hu.
    rewrite Forall_forall in Hbody. now apply Hbody. }
  destruct Hpad as [->|[[-> Hne]| ->]]; cbn [rev app].
  - rewrite app_nil_r. destruct (rev body) as [|p [|q before]] eqn:E; [reflexivity| |].
    + inversion Hrev as [|? ? Hp _]; subst. now rewrite Hp.
    + inversion Hrev as [|? ? Hp _]; subst. now rewrite Hp.
  - destruct (rev body) as [|q before] eqn:E.
    + exfalso. apply Hne. rewrite <- (rev_involutive body), E. reflexivity.
    + inversion Hrev as [|? ? Hq _]; subst. rewrite Hq.
      rewrite N.eqb_refl. cbn [andb].
      change (rev before ++ [q])%list with (rev (q :: before)).
      rewrite <- E. apply rev_involutive.
  - rewrite N.eqb_refl. cbn [andb]. apply rev_involutive.
Qed.

Lemma sextets_alphabet (vs : list N) :
  Forall (fun v => v < 64) vs -> sextets (map alphabet vs) = Some vs.
Proof.
  induction 1 as [|v vs Hv _ IH]; [reflexivity|].
  cbn [map sextets]. now rewrite (sextet_alphabet v Hv), IH.
Qed.

(** [atob] undoes base64. *)
Lemma atob_base64 (bytes : list N) :
  Forall (fun b => b < 256) bytes -> atob (base64 bytes) = Parsed bytes.
Proof.
  intros Hbytes. pose proof (sextetsOf_range bytes Hbytes) as Hvs.
  destruct (base64_shape bytes) as [k Hshape].
  assert (Hplain : Forall (fun u => negb (isAsciiWhitespace u) = true) (base64 bytes)).
  { rewrite base64_parts. apply Forall_app. split.
    - apply Forall_forall. intros u Hu. apply in_map_iff in Hu.
      destruct Hu as (v & <- & Hv). rewrite Forall_forall in Hvs.
      now rewrite (proj1 (alphabet_plain v (Hvs v Hv))).
    - destruct Hshape as [[_ ->]|[[_ ->]|[_ ->]]]; repeat constructor. }
  assert (Hbody : Forall (fun u => (u =? EQUALS) = false) (map alphabet (sextetsOf bytes))).
  { apply Forall_forall. intros u Hu. apply in_map_iff in Hu.
    destruct Hu as (v & <- & Hv). rewrite Forall_forall in Hvs.
    exact (proj2 (alphabet_plain v (Hvs v Hv))). }
  unfold atob. rewrite (filter_all _ _ Hplain), base64_parts.
  rewrite dropPadding_body.
  - rewrite length_map.
    assert (Hmod : (N.of_nat (length (sextetsOf bytes)) mod 4 =? 1) = false).
    { apply N.eqb_neq. destruct Hshape as [[H _]|[[H _]|[H _]]]; rewrite H; lia. }
    rewrite Hmod, (sextets_alphabet _ Hvs).
    now rewrite (decodeSextets_sextetsOf bytes Hbytes).
  - exact Hbody.
  - destruct Hshape as [[_ ->]|[[H ->]|[_ ->]]]; auto.
    right. left. split; [reflexivity|].
    destruct (sextetsOf bytes); [simpl in H; lia | discriminate].
  - rewrite length_app, length_map.
    destruct Hshape as [[H ->]|[[H ->]|[H ->]]]; rewrite H; cbn [length]; lia.
Qed.

End Base64Facts.

Section Utf8Facts.
Local Open Scope N_scope.

Lemma between_true (lo hi u : N) : lo <= u <= hi -> between lo hi u = true.
Proof.
  intros [H1 H2]. unfold between. apply andb_true_iff.
  split; now apply N.leb_le.
Qed.

Lemma between_false (lo hi u : N) : u < lo \/ hi < u -> between lo hi u = false.
Proof.
  intros H. unfold between. apply andb_false_iff.
  destruct H as [H|H]; [left | right]; now apply N.leb_gt.
Qed.

Lemma lead_1 (b : N) : b <= 127 -> lead b = Whole b.
Proof. intros H. unfold lead. apply N.leb_le in H. now rewrite H. Qed.

Lemma lead_2 (b : N) :
  194 <= b <= 223 -> lead b = Begun (mkPending (b mod 32) 1 128 191).
Proof.
  intros H. unfold lead.
  replace (b <=? 127) with false by (symmetry; apply N.leb_gt; lia).
  now rewrite between_true.
Qed.

Lemma lead_3 (b : N) :
  224 <= b <= 239 ->
  lead b = Begun (mkPending (b mod 16) 2
                            (if b =? 224 then 160 else 128)
                            (if b =? 237 then 159 else 191)).
Proof.
  intros H. unfold lead.
  replace (b <=? 127) with false by (symmetry; apply N.leb_gt; lia).
  rewrite (between_false 194 223) by lia. now rewrite between_true.
Qed.

Lemma lead_4 (b : N) :
  240 <= b <= 244 ->
  lead b = Begun (mkPending (b mod 8) 3
                            (if b =? 240 then 144 else 128)
                            (if b =? 244 then 143 else 191)).
Proof.
  intros H. unfold lead.
  replace (b <=? 127) with false by (symmetry; apply N.leb_gt; lia).
  rewrite (between_false 194 223), (between_false 224 239) by lia.
  now rewrite between_true.
Qed.

(** A byte within the bounds continues the code point under way. *)
Lemma utf8From_continue (p : Pending) (b : N) (rest : list N) :
  lowerBoundary p <= b <= upperBoundary p ->
  utf8From (Some p) (b :: rest) =
  match bytesNeeded p with
  | 1%nat => codePoint p * 64 + b mod 64 :: utf8From None rest
  | needed =>
      utf8From (Some (mkPending (codePoint p * 64 + b mod 64) (Nat.pred needed) 128 191))
               rest
  end.
Proof.
  intros H. cbn [utf8From]. now rewrite between_true.
Qed.

Lemma utf8From_lead (b : N) (rest : list N) :
  utf8From None (b :: rest) =
  match lead b with
  | Whole c => c :: utf8From None rest
  | Begun p => utf8From (Some p) rest
  | Invalid => REPLACEMENT :: utf8From None rest
  end.
Proof. reflexivity. Qed.

(** The decoder reads back the UTF-8 of a scalar value. *)
Lemma utf8From_utf8Of (c : N) (rest : list N) :
  scalar c -> utf8From None (utf8Of c ++ rest)%list = c :: utf8From None rest.
Proof.
  intros Hc. unfold utf8Of.
  destruct (N.ltb_spec c 128) as [H1|H1].
  { cbn [app]. rewrite utf8From_lead, lead_1 by lia. reflexivity. }
  destruct (N.ltb_spec c 2048) as [H2|H2].
  { cbn [app]. rewrite utf8From_lead, lead_2 by lia.
    rewrite utf8From_continue by (cbn [lowerBoundary upperBoundary]; lia).
    cbn [bytesNeeded codePoint]. f_equal. lia. }
  destruct (N.ltb_spec c 65536) as [H3|H3].
  { cbn [app]. rewrite utf8From_lead, lead_3 by lia.
    rewrite utf8From_continue.
    - cbn [bytesNeeded codePoint Nat.pred].
      rewrite utf8From_continue by (cbn [lowerBoundary upperBoundary]; lia).
      cbn [bytesNeeded codePoint]. f_equal. lia.
    - cbn [lowerBoundary upperBoundary].
      destruct (N.eqb_spec (224 + c / 4096) 224), (N.eqb_spec (224 + c / 4096) 237);
        unfold scalar in Hc; lia. }
  cbn [app]. rewrite utf8From_lead, lead_4 by (unfold scalar in Hc; lia).
  rewrite utf8From_continue.
  - cbn [bytesNeeded codePoint Nat.pred].
    rewrite utf8From_continue by (cbn [lowerBoundary upperBoundary]; lia).
    cbn [bytesNeeded codePoint Nat.pred].
    rewrite utf8From_continue by (cbn [lowerBoundary upperBoundary]; lia).
    cbn [bytesNeeded codePoint]. f_equal. unfold scalar in Hc. lia.
  - cbn [lowerBoundary upperBoundary].
    destruct (N.eqb_spec (240 + c / 262144) 240), (N.eqb_spec (240 + c / 262144) 244);
      unfold scalar in Hc; lia.
Qed.

Lemma utf8From_utf8 (codePoints : list N) :
  Forall scalar codePoints -> utf8From None (utf8 codePoints) = codePoints.
Proof.
  induction 1 as [|c l Hc _ IH]; [reflexivity|].
  unfold utf8. cbn [flat_map]. fold (utf8 l).
  now rewrite (utf8From_utf8Of c _ Hc), IH.
Qed.

Lemma utf8_bytes (codePoints : list N) :
  Forall scalar codePoints -> Forall (fun b => b < 256) (utf8 codePoints).
Proof.
  induction 1 as [|c l Hc _ IH]; [constructor|].
  unfold utf8. cbn [flat_map]. apply Forall_app. split; [|exact IH].
  unfold utf8Of, scalar in *.
  destruct (N.ltb_spec c 128); [repeat constructor; lia|].
  destruct (N.ltb_spec c 2048); [repeat constructor; lia|].
  destruct (N.ltb_spec c 65536); repeat constructor; lia.
Qed.

Lemma toBytes_bytes (bytes : list N) :
  Forall (fun b => b < 256) bytes -> toBytes bytes = bytes.
Proof.
  induction 1 as [|b l Hb _ IH]; [reflexivity|].
  unfold toBytes in *. cbn [map]. rewrite IH. f_equal. now apply N.mod_small.
Qed.

End Utf8Facts.

Section DecodeBase64Facts.
Local Open Scope N_scope.

(** The two ways a call ends: with the decoded text and a console left as
    it was, or, when [atob] rejects the text, with its exception after one
    console line; the second [atob] of the [catch] block rejects it again. *)
Lemma decodeBase64_cases (str : CodeUnits) (c : Console Dom) :
  decodeBase64 str c =
  match atob (removeSpaces str) with
  | Parsed binary => (Return (decode (toBytes binary)), c)
  | SyntaxError e =>
      (Throw (DecoderError e),
       (c ++ [[LogString "Base64 decode failed"; LogThrown (DecoderError e)]])%list)
  end.
Proof.
  unfold decodeBase64, tryCatch, bind, callAtob, consoleError, ret, throw.
  destruct (atob (removeSpaces str)); reflexivity.
Qed.

(** X15.  File content comes back.  When the characters of [str] other than
    white space are the base64 of the UTF-8 of a text of scalar values, the
    call returns that text, as UTF-16 and without a byte order mark at its
    start, and writes nothing to the console. *)
Theorem decodeBase64_round_trip (text : list N) (str : CodeUnits) (c : Console Dom) :
  Forall scalar text ->
  removeSpaces str = base64 (utf8 text) ->
  decodeBase64 str c = (Return (utf16 (dropMark text)), c).
Proof.
  intros Htext Hstr. rewrite decodeBase64_cases, Hstr.
  pose proof (utf8_bytes text Htext) as Hbytes.
  rewrite (atob_base64 _ Hbytes), (toBytes_bytes _ Hbytes).
  unfold decode. now rewrite (utf8From_utf8 text Htext).
Qed.

End DecodeBase64Facts.

(** "Hi €" as the API sends it, with a line feed inside. *)
Lemma decodeBase64_round_trip_witness :
  removeSpaces (unitsOfString "SGkg
4oKs") = base64 (utf8 [72; 105; 32; 8364]%N) /\
  decodeBase64 (unitsOfString "SGkg
4oKs") [] = (Return [72; 105; 32; 8364]%N, []).
Proof.
  split; [reflexivity|].
  apply (decodeBase64_round_trip [72; 105; 32; 8364]%N).
  - repeat constructor; unfold scalar; lia.
  - reflexivity.
Defined.

Section StrayCharacters.
Local Open Scope N_scope.

Lemma isAsciiWhitespace_isSpace (u : N) :
  isAsciiWhitespace u = true -> isSpace u = true.
Proof.
  unfold isAsciiWhitespace, isSpace, between.
  repeat match goal with
  | |- context [?a =? ?b] => destruct (N.eqb_spec a b); [subst; try reflexivity|]
  end; cbn; discriminate.
Qed.

Lemma dropPadding_keeps (data : CodeUnits) (u : N) :
  In u data -> u <> EQUALS -> In u (dropPadding data).
Proof.
  intros Hin Hu. unfold dropPadding.
  destruct (N.of_nat (length data) mod 4 =? 0); [|exact Hin].
  apply in_rev in Hin.
  destruct (rev data) as [|p [|q before]] eqn:E.
  - destruct Hin.
  - destruct (N.eqb_spec p EQUALS) as [->|Hp].
    + destruct Hin as [<-|[]]. now destruct Hu.
    + apply in_rev. now rewrite E.
  - destruct (N.eqb_spec p EQUALS) as [->|Hp]; cbn [andb].
    + destruct Hin as [<-|Hin]; [now destruct Hu|].
      destruct (N.eqb_spec q EQUALS) as [->|Hq].
      * destruct Hin as [<-|Hin]; [now destruct Hu|]. now apply in_rev in Hin.
      * now apply in_rev in Hin.
    + apply in_rev. now rewrite E.
Qed.

Lemma sextets_stray (data : CodeUnits) (u : N) :
  In u data -> sextet u = None -> sextets data = None.
Proof.
  induction data as [|v data IH]; intros Hin Hu; [destruct Hin|].
  cbn [sextets]. destruct Hin as [->|Hin].
  - now rewrite Hu.
  - rewrite (IH Hin Hu). now destruct (sextet v).
Qed.

(** X16.  A stray character makes the call throw.  When [str] has a character
    that is neither white space, nor of the base64 alphabet, nor "=", the
    call throws the exception of [atob] after one console line: the [catch]
    block cannot return a text. *)
Theorem stray_character_throws (str : CodeUnits) (c : Console Dom) (u : N) :
  In u str -> isSpace u = false -> sextet u = None -> u <> EQUALS ->
  decodeBase64 str c =
  (Throw (DecoderError InvalidCharacterError),
   (c ++ [[LogString "Base64 decode failed";
           LogThrown (DecoderError InvalidCharacterError)]])%list).
Proof.
  intros Hin Hsp Hsx Heq. rewrite decodeBase64_cases.
  assert (Hfail : atob (removeSpaces str) = SyntaxError InvalidCharacterError).
  { unfold atob.
    assert (H1 : In u (filter (fun u => negb (isAsciiWhitespace u)) (removeSpaces str))).
    { apply filter_In. split.
      - apply filter_In. split; [exact Hin | now rewrite Hsp].
      - destruct (isAsciiWhitespace u) eqn:E; [|reflexivity].
        apply isAsciiWhitespace_isSpace in E. congruence. }
    apply (dropPadding_keeps _ u) in H1; [|exact Heq].
    rewrite (sextets_stray _ u H1 Hsx).
    now destruct (_ =? 1). }
  now rewrite Hfail.
Qed.

End StrayCharacters.

(** URL-safe base64 is not accepted. *)
Lemma stray_character_throws_witness :
  fst (decodeBase64 (unitsOfString "SGk_") [])
  = Throw (DecoderError InvalidCharacterError).
Proof.
  rewrite (stray_character_throws (unitsOfString "SGk_") [] 95%N);
    try reflexivity.
  - right. right. right. now left.
  - discriminate.
Defined.

(** ** Properties of fetchRepoTree *)

Import GitHubApi.

Section FetchRepoTreeFacts.
Context {E Data Tree : Type}.
Variable network : list string -> string -> Settled (@Response E Data) E.
Variable treeOf : Data -> Settled Tree E.

(** One request settles a call for a branch other than 'main', at any
    depth. *)
Lemma fetchRepoTreeWithin_other (depth : nat) (owner repo branch : string)
      (requests : list string) :
  branch <> "main" ->
  fetchRepoTreeWithin network treeOf (S depth) owner repo branch requests
  = fetchRepoTreeWithin network treeOf 1 owner repo branch requests /\
  exists ending,
    fetchRepoTreeWithin network treeOf 1 owner repo branch requests
    = Some (ending, (requests ++ [treeUrl owner repo branch])%list).
Proof.
  intros Hb. apply String.eqb_neq in Hb. cbn [fetchRepoTreeWithin].
  destruct (network requests (treeUrl owner repo branch)) as [response|e]; [|eauto].
  destruct (ok response); cbn [negb].
  - destruct (json response) as [data|e]; [|eauto].
    destruct (treeOf data); eauto.
  - rewrite Hb. eauto.
Qed.

(** A greater bound than 2 changes nothing. *)
Lemma fetchRepoTreeWithin_enough (depth : nat) (owner repo branch : string)
      (requests : list string) :
  fetchRepoTreeWithin network treeOf (S (S depth)) owner repo branch requests
  = fetchRepoTreeWithin network treeOf 2 owner repo branch requests.
Proof.
  assert (Hm : "master" <> "main") by discriminate.
  change (fetchRepoTreeWithin network treeOf (S (S depth)) owner repo branch requests)
    with (match network requests (treeUrl owner repo branch) with
          | RejectedWith e => Some (Native e, (requests ++ [treeUrl owner repo branch])%list)
          | Fulfilled response =>
              if negb (ok response) then
                if String.eqb branch "main"
                then fetchRepoTreeWithin network treeOf (S depth) owner repo "master"
                       (requests ++ [treeUrl owner repo branch])%list
                else Some (NewError ("Failed to fetch repository tree for branch: " ++ branch),
                           (requests ++ [treeUrl owner repo branch])%list)
              else
                match json response with
                | RejectedWith e =>
                    Some (Native e, (requests ++ [treeUrl owner repo branch])%list)
                | Fulfilled data =>
                    match treeOf data with
                    | RejectedWith e =>
                        Some (Native e, (requests ++ [treeUrl owner repo branch])%list)
                    | Fulfilled t =>
                        Some (Value t, (requests ++ [treeUrl owner repo branch])%list)
                    end
                end
          end).
  change (fetchRepoTreeWithin network treeOf 2 owner repo branch requests)
    with (match network requests (treeUrl owner repo branch) with
          | RejectedWith e => Some (Native e, (requests ++ [treeUrl owner repo branch])%list)
          | Fulfilled response =>
              if negb (ok response) then
                if String.eqb branch "main"
                then fetchRepoTreeWithin network treeOf 1 owner repo "master"
                       (requests ++ [treeUrl owner repo branch])%list
                else Some (NewError ("Failed to fetch repository tree for branch: " ++ branch),
                           (requests ++ [treeUrl owner repo branch])%list)
              else
                match json response with
                | RejectedWith e =>
                    Some (Native e, (requests ++ [treeUrl owner repo branch])%list)
                | Fulfilled data =>
                    match treeOf data with
                    | RejectedWith e =>
                        Some (Native e, (requests ++ [treeUrl owner repo branch])%list)
                    | Fulfilled t =>
                        Some (Value t, (requests ++ [treeUrl owner repo branch])%list)
                    end
                end
          end).
  now rewrite (proj1 (fetchRepoTreeWithin_other depth owner repo "master" _ Hm)).
Qed.

(** X17.  The retry ends.  Every call returns within a depth of 2, a greater
    bound changes nothing, and the requests made are the tree URL of the
    branch, followed by the tree URL of 'master' only for the branch
    'main'. *)
Theorem fetchRepoTree_requests (owner repo : string) (branch : option string)
        (requests : list string) :
  let b := match branch with Some b => b | None => "main" end in
  exists ending requests',
    fetchRepoTree network treeOf owner repo branch requests = Some (ending, requests') /\
    (forall depth, 2 <= depth ->
       fetchRepoTreeWithin network treeOf depth owner repo b requests
       = Some (ending, requests')) /\
    (requests' = (requests ++ [treeUrl owner repo b])%list \/
     b = "main" /\
     requests' = (requests ++ [treeUrl owner repo "main"; treeUrl owner repo "master"])%list).
Proof.
  intros b. unfold fetchRepoTree. fold b.
  assert (Hm : "master" <> "main") by discriminate.
  assert (H2 : exists ending requests',
             fetchRepoTreeWithin network treeOf 2 owner repo b requests
             = Some (ending, requests') /\
             (requests' = (requests ++ [treeUrl owner repo b])%list \/
              b = "main" /\
              requests' = (requests ++ [treeUrl owner repo "main";
                                        treeUrl owner repo "master"])%list)).
  { destruct (String.eqb_spec b "main") as [Hb|Hb].
    - rewrite Hb. cbn [fetchRepoTreeWithin].
      destruct (network requests (treeUrl owner repo "main")) as [response|e]; [|eauto 6].
      destruct (ok response); cbn [negb].
      + destruct (json response) as [data|e]; [|eauto 6].
        destruct (treeOf data); eauto 6.
      + change (String.eqb "main" "main") with true. cbv iota.
        destruct (fetchRepoTreeWithin_other 0 owner repo "master"
                    (requests ++ [treeUrl owner repo "main"]) Hm) as [_ [e1 H1]].
        cbn [fetchRepoTreeWithin] in H1. rewrite H1.
        rewrite <- app_assoc. cbn [app]. eauto 8.
    - destruct (fetchRepoTreeWithin_other 1 owner repo b requests Hb) as [H1 [e1 H1']].
      rewrite H1, H1'. eauto 8. }
  destruct H2 as (ending & requests' & H2 & Hreq).
  exists ending, requests'. split; [exact H2|]. split; [|exact Hreq].
  intros depth Hd. destruct depth as [|[|d]]; try lia.
  now rewrite fetchRepoTreeWithin_enough.
Qed.

(** X18.  The fallback from 'main' to 'master'.  A response that is not ok is
    answered, for the branch 'main', by the call for 'master' after it, and
    when that response is not ok either the error names 'master'; for any
    other branch it is answered at once by the error that names the
    branch. *)
Theorem fetchRepoTree_fallback (owner repo branch : string) (requests : list string)
        (response : @Response E Data) :
  network requests (treeUrl owner repo branch) = Fulfilled response ->
  ok response = false ->
  (branch = "main" ->
   fetchRepoTree network treeOf owner repo (Some branch) requests
   = fetchRepoTree network treeOf owner repo (Some "master")
       (requests ++ [treeUrl owner repo "main"])%list /\
   forall response',
     network (requests ++ [treeUrl owner repo "main"])%list (treeUrl owner repo "master")
     = Fulfilled response' ->
     ok response' = false ->
     fetchRepoTree network treeOf owner repo (Some branch) requests
     = Some (NewError "Failed to fetch repository tree for branch: master",
             (requests ++ [treeUrl owner repo "main"; treeUrl owner repo "master"])%list)) /\
  (branch <> "main" ->
   fetchRepoTree network treeOf owner repo (Some branch) requests
   = Some (NewError ("Failed to fetch repository tree for branch: " ++ branch),
           (requests ++ [treeUrl owner repo branch])%list)).
Proof.
  intros Hnet Hok. assert (Hm : "master" <> "main") by discriminate. split.
  - intros ->.
    assert (Hstep : fetchRepoTree network treeOf owner repo (Some "main") requests
                    = fetchRepoTreeWithin network treeOf 1 owner repo "master"
                        (requests ++ [treeUrl owner repo "main"])%list).
    { unfold fetchRepoTree. cbn [fetchRepoTreeWithin]. rewrite Hnet, Hok. reflexivity. }
    split.
    + rewrite Hstep. unfold fetchRepoTree.
      symmetry. apply (fetchRepoTreeWithin_other 1 owner repo "master" _ Hm).
    + intros response' Hnet' Hok'. rewrite Hstep. cbn [fetchRepoTreeWithin].
      rewrite Hnet', Hok'. cbn [negb].
      change (String.eqb "master" "main") with false. cbv iota.
      now rewrite <- app_assoc.
  - intros Hb. unfold fetchRepoTree. cbn [fetchRepoTreeWithin].
    rewrite Hnet, Hok. cbn [negb]. apply String.eqb_neq in Hb. now rewrite Hb.
Qed.

End FetchRepoTreeFacts.

Import ApiSamples.

Lemma fetchRepoTree_requests_witness :
  fetchRepoTree masterOnly bodyTree "pallets" "flask" None []
  = Some (Value [file "README.rst"; file "src/flask/app.py"],
          [treeUrl "pallets" "flask" "main"; treeUrl "pallets" "flask" "master"]) /\
  fetchRepoTreeWithin masterOnly bodyTree 7 "pallets" "flask" "main" []
  = fetchRepoTree masterOnly bodyTree "pallets" "flask" None [].
Proof.
  split; [reflexivity|].
  destruct (fetchRepoTree_requests masterOnly bodyTree "pallets" "flask" None [])
    as (ending & requests' & H2 & Hdepth & _).
  rewrite H2. apply Hdepth. lia.
Defined.

Lemma fetchRepoTree_fallback_witness :
  fetchRepoTree nothingThere bodyTree "pallets" "flask" (Some "main") []
  = Some (NewError "Failed to fetch repository tree for branch: master",
          [treeUrl "pallets" "flask" "main"; treeUrl "pallets" "flask" "master"]) /\
  fetchRepoTree nothingThere bodyTree "pallets" "flask" (Some "develop") []
  = Some (NewError "Failed to fetch repository tree for branch: develop",
          [treeUrl "pallets" "flask" "develop"]).
Proof.
  split.
  - apply (proj2 (proj1 (fetchRepoTree_fallback nothingThere bodyTree "pallets" "flask"
                           "main" [] notFound eq_refl eq_refl) eq_refl) notFound);
      reflexivity.
  - apply (proj2 (fetchRepoTree_fallback nothingThere bodyTree "pallets" "flask" "develop" []
                    notFound eq_refl eq_refl)). discriminate.
Defined.

(** ** safeJsonParse on wrapped responses *)

Import Wrapping.

Lemma blank_cons (c : ascii) (r : string) :
  blank (String c r) -> isWhiteSpace c = true /\ blank r.
Proof.
  unfold blank. cbn [trimStart]. destruct (isWhiteSpace c); [auto | discriminate].
Qed.

Lemma trimStart_blank_app (ws x : string) :
  blank ws -> trimStart (ws ++ x) = trimStart x.
Proof.
  induction ws as [|c r IH]; intros H; [reflexivity|].
  apply blank_cons in H. destruct H as [Hc Hr].
  cbn [append trimStart]. rewrite Hc. now apply IH.
Qed.

Lemma trimEnd_blank (ws : string) : blank ws -> trimEnd ws = "".
Proof.
  induction ws as [|c r IH]; intros H; [reflexivity|].
  apply blank_cons in H. destruct H as [Hc Hr].
  cbn [trimEnd]. now rewrite (IH Hr), Hc.
Qed.

Lemma trimEnd_app_blank (x ws : string) :
  blank ws -> trimEnd (x ++ ws) = trimEnd x.
Proof.
  intros H. induction x as [|c r IH]; cbn [append trimEnd].
  - now apply trimEnd_blank.
  - now rewrite IH.
Qed.

Lemma trimEnd_ends (x : string) (c : ascii) :
  isWhiteSpace c = false -> trimEnd (x ++ String c "") = x ++ String c "".
Proof.
  intros Hc. induction x as [|a r IH]; cbn [append trimEnd].
  - now rewrite Hc.
  - rewrite IH. now destruct r.
Qed.

Lemma dropLetters_app (tag x : string) :
  letters tag -> dropLetters (tag ++ x) = dropLetters x.
Proof.
  unfold letters. induction tag as [|c r IH]; intros H; [reflexivity|].
  cbn [dropLetters] in H. cbn [append dropLetters].
  destruct (isLetter c); [now apply IH | discriminate].
Qed.

Lemma eqb_length_neq (a b : string) :
  String.length a <> String.length b -> String.eqb a b = false.
Proof. intros H. apply String.eqb_neq. intros ->. now apply H. Qed.

Lemma removeClosingFence_line (body : string) :
  removeClosingFence (body ++ String LF fence) = body.
Proof.
  induction body as [|c r IH].
  - reflexivity.
  - cbn [append removeClosingFence].
    rewrite !eqb_length_neq, IH; [reflexivity | |];
      cbn [String.length]; rewrite length_append; cbn; lia.
Qed.

(** What the first attempt parses of a fenced block is its body. *)
Lemma cleaned_fencedBlock (before tag body after : string) :
  blank before -> letters tag -> blank after ->
  cleaned (fencedBlock before tag body after) = body.
Proof.
  intros Hb Ht Ha. unfold cleaned, fencedBlock.
  assert (Htrim : trim (before ++ fence ++ tag ++ String LF (body ++ String LF fence) ++ after)
                  = fence ++ tag ++ String LF (body ++ String LF fence)).
  { unfold trim. rewrite (trimStart_blank_app _ _ Hb).
    change (trimStart (fence ++ tag ++ String LF (body ++ String LF fence) ++ after))
      with (fence ++ tag ++ String LF (body ++ String LF fence) ++ after).
    replace (fence ++ tag ++ String LF (body ++ String LF fence) ++ after)
      with ((fence ++ tag ++ String LF (body ++ String LF fence)) ++ after)
      by (cbn [fence append]; rewrite !append_assoc; cbn [append];
          now rewrite !append_assoc).
    rewrite (trimEnd_app_blank _ _ Ha).
    replace (fence ++ tag ++ String LF (body ++ String LF fence))
      with ((fence ++ tag ++ String LF (body ++ String LF "``")) ++ String "`" "")
      by (cbn [fence append]; rewrite !append_assoc; cbn [append];
          rewrite !append_assoc; reflexivity).
    now apply trimEnd_ends. }
  rewrite Htrim.
  assert (Hs : startsWith (fence ++ tag ++ String LF (body ++ String LF fence)) fence = true).
  { unfold startsWith. apply prefix_app_iff. eauto. }
  rewrite Hs. unfold removeOpeningFence. unfold startsWith in Hs. rewrite Hs.
  assert (Hsub : substring 3 (String.length (fence ++ tag ++ String LF (body ++ String LF fence)) - 3)
                           (fence ++ tag ++ String LF (body ++ String LF fence))
                 = tag ++ String LF (body ++ String LF fence)).
  { cbn. now rewrite Nat.sub_0_r, substring_all. }
  rewrite Hsub, (dropLetters_app _ _ Ht).
  change (dropNewline (dropLetters (String LF (body ++ String LF fence))))
    with (body ++ String LF fence).
  apply removeClosingFence_line.
Qed.

Lemma indexOf_app (a b : string) (c : ascii) :
  indexOf a c = (-1)%Z ->
  indexOf (a ++ b) c
  = (if (indexOf b c =? -1)%Z then -1 else Z.of_nat (String.length a) + indexOf b c)%Z.
Proof.
  induction a as [|x a IH]; intros H.
  - cbn [append String.length]. destruct (indexOf b c =? -1)%Z eqn:E; [|lia].
    now apply Z.eqb_eq in E.
  - cbn [indexOf] in H. cbn [append indexOf String.length].
    destruct (Ascii.eqb x c); [discriminate|].
    destruct (indexOf a c =? -1)%Z eqn:Ea;
      [|pose proof (indexOf_range a c); lia].
    apply Z.eqb_eq in Ea. rewrite (IH Ea).
    pose proof (indexOf_range b c).
    destruct (indexOf b c =? -1)%Z eqn:Eb; [reflexivity|].
    apply Z.eqb_neq in Eb.
    destruct (_ =? -1)%Z eqn:E2; [apply Z.eqb_eq in E2; lia | lia].
Qed.

Lemma lastIndexOf_app (a b : string) (c : ascii) :
  lastIndexOf (a ++ b) c
  = (if (lastIndexOf b c =? -1)%Z then lastIndexOf a c
     else Z.of_nat (String.length a) + lastIndexOf b c)%Z.
Proof.
  induction a as [|x a IH].
  - cbn [append String.length lastIndexOf]. destruct (lastIndexOf b c =? -1)%Z eqn:E; [|lia].
    now apply Z.eqb_eq in E.
  - cbn [append lastIndexOf String.length]. rewrite IH.
    pose proof (lastIndexOf_range b c). pose proof (lastIndexOf_range a c).
    destruct (lastIndexOf b c =? -1)%Z eqn:Eb.
    + reflexivity.
    + apply Z.eqb_neq in Eb.
      destruct (_ =? -1)%Z eqn:E2; [apply Z.eqb_eq in E2; lia | lia].
Qed.

Lemma lastIndexOf_closing (x after : string) (cl c : ascii) :
  indexOf after c = (-1)%Z ->
  lastIndexOf (x ++ String cl after) c
  = if Ascii.eqb cl c then Z.of_nat (String.length x) else lastIndexOf x c.
Proof.
  intros H. apply indexOf_absent, lastIndexOf_absent in H.
  rewrite (lastIndexOf_app x (String cl after) c).
  change (lastIndexOf (String cl after) c)
    with (if (lastIndexOf after c =? -1)%Z
          then (if Ascii.eqb cl c then 0%Z else (-1)%Z)
          else (lastIndexOf after c + 1)%Z).
  rewrite H. change ((-1 =? -1)%Z) with true. cbv iota.
  destruct (Ascii.eqb cl c).
  - change ((0 =? -1)%Z) with false. cbv iota. lia.
  - reflexivity.
Qed.

Lemma substring_middle (a b c : string) :
  substring (String.length a) (String.length b) (a ++ b ++ c) = b.
Proof.
  induction a as [|x a IH]; cbn [append String.length substring]; [|exact IH].
  induction b as [|y b IHb]; cbn [append String.length substring].
  - now destruct c.
  - now rewrite IHb.
Qed.

(** The boundary slice of a bracketed text with other text around it. *)
Lemma sliced_wrapped (before : string) (o : ascii) (inside : string) (cl : ascii)
      (after : string) :
  o = "{"%char \/ o = "["%char -> cl = "}"%char \/ cl = "]"%char ->
  without "{" "[" before -> without "}" "]" after ->
  sliceable (wrapped before o inside cl after) = true /\
  sliced (wrapped before o inside cl after) = String o (inside ++ String cl "").
Proof.
  intros Ho Hcl [Hb1 Hb2] [Ha1 Ha2].
  set (text := wrapped before o inside cl after).
  assert (Hstart : start text = Z.of_nat (String.length before)).
  { unfold start, startObj, startArr, text, wrapped.
    rewrite (indexOf_app before _ "{" Hb1), (indexOf_app before _ "[" Hb2).
    cbn [indexOf].
    pose proof (indexOf_range (inside ++ String cl after) "{").
    pose proof (indexOf_range (inside ++ String cl after) "[").
    destruct Ho as [-> | ->]; cbn [Ascii.eqb Bool.eqb];
      repeat match goal with
      | |- context [(?a =? ?b)%Z] => destruct (Z.eqb_spec a b); try lia
      | |- context [(?a <? ?b)%Z] => destruct (Z.ltb_spec a b); try lia
      end; cbn [negb andb orb]; lia. }
  assert (Hend : end_ text
                 = Z.of_nat (String.length before + 1 + String.length inside)).
  { unfold end_, endObj, endArr, text, wrapped.
    replace (before ++ String o (inside ++ String cl after))
      with ((before ++ String o inside) ++ String cl after)
      by (rewrite append_assoc; reflexivity).
    assert (Hl : String.length (before ++ String o inside)
                 = String.length before + 1 + String.length inside).
    { rewrite length_append. cbn. lia. }
    pose proof (lastIndexOf_range (before ++ String o inside) "}") as R1.
    pose proof (lastIndexOf_range (before ++ String o inside) "]") as R2.
    rewrite (lastIndexOf_closing _ after cl "}" Ha1),
      (lastIndexOf_closing _ after cl "]" Ha2).
    rewrite Hl in *.
    generalize dependent (lastIndexOf (before ++ String o inside) "}").
    generalize dependent (lastIndexOf (before ++ String o inside) "]").
    intros z2 R2 z1 R1.
    destruct Hcl as [-> | ->]; cbn [Ascii.eqb Bool.eqb];
      repeat match goal with
      | |- context [(?a >? ?b)%Z] => rewrite (Z.gtb_ltb a b)
      | |- context [(?a =? ?b)%Z] => destruct (Z.eqb_spec a b); try lia
      | |- context [(?a <? ?b)%Z] => destruct (Z.ltb_spec a b); try lia
      end; cbn [negb andb orb]; lia. }
  assert (Hok : sliceable text = true).
  { unfold sliceable. rewrite Hstart, Hend.
    repeat match goal with
    | |- context [(?a =? ?b)%Z] => destruct (Z.eqb_spec a b); try lia
    | |- context [(?a >? ?b)%Z] => rewrite (Z.gtb_ltb a b)
    | |- context [(?a <? ?b)%Z] => destruct (Z.ltb_spec a b); try lia
    end; reflexivity. }
  split; [exact Hok|].
  unfold sliced. rewrite Hstart, Hend.
  assert (Htext : String.length text
                  = String.length before + 1 + String.length inside + 1 + String.length after).
  { unfold text, wrapped. rewrite length_append. cbn [String.length].
    rewrite length_append. cbn. lia. }
  rewrite slice_inclusive by lia.
  replace (Z.to_nat (Z.of_nat (String.length before))) with (String.length before) by lia.
  replace (Z.to_nat (Z.of_nat (String.length before + 1 + String.length inside)
                     - Z.of_nat (String.length before) + 1))
    with (String.length (String o (inside ++ String cl ""))).
  2:{ cbn [String.length]. rewrite length_append. cbn. lia. }
  unfold text, wrapped.
  replace (before ++ String o (inside ++ String cl after))
    with (before ++ String o (inside ++ String cl "") ++ after)
    by (cbn [append]; rewrite append_assoc; reflexivity).
  apply substring_middle.
Qed.

Section WrappedResponses.
Context {V D : Type} (decode : Decoder V D).

(** X19.  A fenced response.  For a response that is a fenced code block, the
    fence with a tag of letters (or none) on a line, the body, the closing
    fence on a line, and white space around: when the decoder accepts the
    body, its value is returned and nothing is written to the console. *)
Theorem fenced_response (before tag body after : string) (v : V) (c : Console D) :
  blank before -> letters tag -> blank after ->
  decode body = Parsed v ->
  safeJsonParse decode (fencedBlock before tag body after) c = (Return v, c).
Proof.
  intros Hb Ht Ha Hv. apply safeJsonParse_direct.
  now rewrite cleaned_fencedBlock.
Qed.

(** X20.  A response with prose around it.  For a text that opens with "{" or
    "[" and closes with "}" or "]", inside other text without these
    brackets before it and without closing brackets after it: when the
    first attempt fails, the second parses the bracketed text, and when the
    decoder accepts that, its value is returned after the one console line
    of the first failure. *)
Theorem prose_wrapped_response (before : string) (o : ascii) (inside : string)
        (cl : ascii) (after : string) (v : V) (e : D) (c : Console D) :
  o = "{"%char \/ o = "["%char -> cl = "}"%char \/ cl = "]"%char ->
  without "{" "[" before -> without "}" "]" after ->
  decode (cleaned (wrapped before o inside cl after)) = SyntaxError e ->
  decode (String o (inside ++ String cl "")) = Parsed v ->
  sliced (wrapped before o inside cl after) = String o (inside ++ String cl "") /\
  safeJsonParse decode (wrapped before o inside cl after) c
  = (Return v, (c ++ [rawTextLine (wrapped before o inside cl after)])%list).
Proof.
  intros Ho Hcl Hb Ha HA Hv.
  destruct (sliced_wrapped before o inside cl after Ho Hcl Hb Ha) as [Hok Hsl].
  split; [exact Hsl|].
  rewrite (safeJsonParse_fallback decode _ c e HA), Hok, Hsl, Hv. reflexivity.
Qed.

End WrappedResponses.

Lemma fenced_response_witness :
  fencedBlock " " "json" Samples.objectText (String LF "")
  = " ```json" ++ String LF (Samples.objectText ++ String LF ("```" ++ String LF "")) /\
  safeJsonParse Json.parse (fencedBlock " " "json" Samples.objectText (String LF "")) []
  = (Return Samples.objectValue, []).
Proof.
  split; [reflexivity|].
  apply fenced_response; reflexivity.
Defined.

Lemma prose_wrapped_response_witness :
  wrapped "Here is the result: " "{"
          (String Json.DQUOTE (String "a" (String Json.DQUOTE ":1"))) "}"
          " Hope that helps!"
  = Samples.proseWrapped /\
  safeJsonParse Json.parse Samples.proseWrapped []
  = (Return Samples.objectValue, [rawTextLine Samples.proseWrapped]).
Proof.
  split; [reflexivity|].
  apply (proj2 (prose_wrapped_response Json.parse "Here is the result: " "{"
                  (String Json.DQUOTE (String "a" (String Json.DQUOTE ":1"))) "}"
                  " Hope that helps!" Samples.objectValue Json.unexpected []
                  (or_introl eq_refl) (or_introl eq_refl)
                  (conj eq_refl eq_refl) (conj eq_refl eq_refl) eq_refl eq_refl)).
Defined.

(** A bracket in the prose moves the slice: the second attempt fails. *)
Example bracket_in_prose :
  sliced ("See [1]: " ++ Samples.objectText) = "[1]: " ++ Samples.objectText /\
  fst (safeJsonParse Json.parse ("See [1]: " ++ Samples.objectText) [])
  = Throw MalformedResponse.
Proof. split; reflexivity. Qed.
